(** * graphsplit command driver: chunk and restore

    A shallow embedding of [cmd/graphsplit/main.go].  The two command
    actions, [chunkCmd] and [restoreCmd], are written as programs of a
    small monad that threads the outside world, records every call made
    to the [graphsplit], [config], [units] and [time] packages as an
    event, and stops at the first [return].  The packages themselves lie
    outside [main.go]; they are taken as a record of handlers over an
    abstract world, so every statement below holds for whatever those
    packages do. *)

From Stdlib Require Import ZArith List String Ascii Bool Lia.
Import ListNotations.
Local Open Scope string_scope.
Local Open Scope list_scope.
Local Open Scope Z_scope.

(** ** Machine integers *)

(** Go's [int] is 64 bits wide here: the constant [32*graphsplit.Gib] of
    the driver does not fit a 32-bit [int]. *)
Definition MinInt : Z := - 2 ^ 63.
Definition MaxInt : Z := 2 ^ 63 - 1.

Definition wrap64 (z : Z) : Z := (z + 2 ^ 63) mod 2 ^ 64 - 2 ^ 63.

Definition in_int (z : Z) : Prop := MinInt <= z <= MaxInt.

(** Modelled from the spec: the constant [graphsplit.Gib], declared in the
    library package and not in [main.go]; the spec names the bound
    [32*Gib] as 32 GiB, so [Gib] is one gibibyte. *)
Definition Gib : Z := 2 ^ 30.

(** ** Strings *)

(** [strings.TrimSuffix]: [s] without the trailing [suffix], or [s] itself
    when it does not end with it. *)
Definition TrimSuffix (s suffix : string) : string :=
  let n := String.length s in
  let k := String.length suffix in
  if (k <=? n)%nat && String.eqb (substring (n - k) k s) suffix
  then substring 0 (n - k) s
  else s.

(** ** Data *)

(** The fields of [config.Config] that the driver reads or writes. *)
Record Config := mkConfig {
  SliceSize : Z;
  ExtraFilePath : string;
  ExtraFileSizeInOnePiece : string
}.

Definition set_SliceSize (cfg : Config) (n : Z) : Config :=
  {| SliceSize := n;
     ExtraFilePath := ExtraFilePath cfg;
     ExtraFileSizeInOnePiece := ExtraFileSizeInOnePiece cfg |}.

(** The three values a [graphsplit.GraphBuildCallback] takes in the
    driver, each with the arguments of the call that builds it. *)
Inductive GraphBuildCallback :=
| CommPCallback (carDir : string) (rename addPadding : bool)
| CSVCallback (carDir : string)
| ErrCallback.

(** Flags and arguments of the [chunk] command. *)
Record ChunkFlags := mkChunkFlags {
  f_parallel : Z;
  f_graph_name : string;
  f_car_dir : string;
  f_parent_path : string;
  f_save_manifest : bool;
  f_calc_commp : bool;
  f_rename : bool;
  f_random_rename_source_file : bool;
  f_add_padding : bool;
  f_config : string;
  f_loop : bool;
  f_random_select_file : bool;
  f_args : list string
}.

(** Flags of the [restore] command. *)
Record RestoreFlags := mkRestoreFlags {
  r_car_path : string;
  r_output_dir : string;
  r_parallel : Z
}.

(** [c.Args().First()]. *)
Definition First (args : list string) : string := hd "" args.

(** The errors the two actions build, one constructor per [fmt.Errorf]
    (and one per error handed on unchanged). *)
Inductive error :=
| ErrCarDirMissing
| ErrConfigPathRequired
| ErrLoadConfig (cfgPath cause : string)
| ErrSliceSize (sliceSize : Z)
| ErrSaveConfig (cause : string)
| ErrExtraSizeRequired
| ErrParseSize (cause : string)
| ErrExceeds32GiB (sliceSize extraFileSliceSize : Z)
| ErrPassed (cause : string)
| ErrFailedToChunk (cause : string)
| ErrParallel.

(** Lines written to the log or to standard output. *)
Inductive log_line :=
| LogConfigFile (cfg : Config)
| LogOldSliceSize (n : Z)
| LogNewSliceSize (n : Z)
| LogExtra (extraFileSliceSize : Z) (randomRename randomSelect : bool)
| LogSliceSizeSet (n : Z)
| LogWaiting
| PrintLoop (loop : bool)
| PrintChunkingOnce
| PrintLoopChunking
| PrintCompleted.

(** A step either goes on with a value, or the action has returned (with
    its error, [None] for [nil]), or the bound on loop passes is spent
    while the action is still running. *)
Inductive step (A : Type) :=
| Val (a : A)
| Returned (err : option error)
| Running.
Arguments Val {A} a.
Arguments Returned {A} err.
Arguments Running {A}.

Section Driver.

(** The world outside the process, and the handle [NewRealFile] gives. *)
Variables W RealFile : Type.

(** Everything the driver calls outside [main.go], each call taking the
    world and leaving a new one.  A Go [error] result is a message, [None]
    standing for [nil].  [context.Background()], the first argument of
    [Chunk], carries nothing and is left out.

    The driver calls [CarTo] and [Merge] as statements and takes no
    result from them.  Modelled from the spec: each of the two phases may
    meet failures, one per archive or file; the handler gives them as a
    list, which stands for what the phase met and never reaches the
    driver. *)
Record Externals := mkExternals {
  ext_ExistDir : string -> W -> bool * W;
  ext_LoadConfig : string -> W -> (string + Config) * W;
  ext_SaveConfig : Config -> string -> W -> option string * W;
  ext_RAMInBytes : string -> string + Z;
  ext_NewRealFile : string -> Z -> Z -> bool -> W -> (string + RealFile) * W;
  ext_Chunk : Z -> string -> string -> string -> string -> Z ->
              GraphBuildCallback -> RealFile -> bool -> bool ->
              W -> option string * W;
  ext_CarTo : string -> string -> Z -> W -> list string * W;
  ext_Merge : string -> Z -> W -> list string * W;
  ext_Sleep : Z -> W -> W
}.

(** One event per call, with what the call gave back. *)
Inductive event :=
| EvExistDir (dir : string) (res : bool)
| EvLoadConfig (cfgPath : string) (res : string + Config)
| EvSaveConfig (cfg : Config) (cfgPath : string) (res : option string)
| EvRAMInBytes (size : string) (res : string + Z)
| EvNewRealFile (path : string) (extraFileSliceSize sliceSize : Z)
                (randomRename : bool) (res : string + RealFile)
| EvCallback (cb : GraphBuildCallback)
| EvChunk (sliceSize : Z) (parentPath targetPath carDir graphName : string)
          (parallel : Z) (cb : GraphBuildCallback) (rf : RealFile)
          (randomRename randomSelect : bool) (res : option string)
| EvCarTo (carPath outputDir : string) (parallel : Z) (failures : list string)
| EvMerge (outputDir : string) (parallel : Z) (failures : list string)
| EvSleep (seconds : Z)
| EvLog (l : log_line).

(** ** The monad of an action *)

Record run (A : Type) := mkRun {
  outcome : step A;
  world : W;
  trace : list event
}.
Arguments mkRun {A}.
Arguments outcome {A}.
Arguments world {A}.
Arguments trace {A}.

Definition M (A : Type) : Type := W -> run A.

Definition ret {A} (a : A) : M A := fun w => mkRun (Val a) w [].

Definition return_ {A} (err : option error) : M A :=
  fun w => mkRun (Returned err) w [].

Definition bind {A B} (m : M A) (k : A -> M B) : M B :=
  fun w =>
    let r := m w in
    match outcome r with
    | Val a =>
        let r' := k a (world r) in
        mkRun (outcome r') (world r') (trace r ++ trace r')
    | Returned e => mkRun (Returned e) (world r) (trace r)
    | Running => mkRun Running (world r) (trace r)
    end.

Notation "x <- m ;; k" := (bind m (fun x => k))
  (at level 61, m at next level, right associativity).
Notation "m ;;; k" := (bind m (fun _ => k))
  (at level 61, right associativity).

Variable X : Externals.

(** A call that changes the world and leaves an event. *)
Definition call {A} (h : W -> A * W) (ev : A -> event) : M A :=
  fun w => mkRun (Val (fst (h w))) (snd (h w)) [ev (fst (h w))].

Definition emit (ev : event) : M unit := fun w => mkRun (Val tt) w [ev].

Definition Infof (l : log_line) : M unit := emit (EvLog l).
Definition Println (l : log_line) : M unit := emit (EvLog l).

Definition ExistDir (dir : string) : M bool :=
  call (ext_ExistDir X dir) (EvExistDir dir).

Definition LoadConfig (cfgPath : string) : M (string + Config) :=
  call (ext_LoadConfig X cfgPath) (EvLoadConfig cfgPath).

Definition SaveConfig (cfg : Config) (cfgPath : string) : M (option string) :=
  call (ext_SaveConfig X cfg cfgPath) (EvSaveConfig cfg cfgPath).

(** [units.RAMInBytes] does not touch the world. *)
Definition RAMInBytes (size : string) : M (string + Z) :=
  call (fun w => (ext_RAMInBytes X size, w)) (EvRAMInBytes size).

Definition NewRealFile (path : string) (extra slice : Z) (rename : bool)
  : M (string + RealFile) :=
  call (ext_NewRealFile X path extra slice rename)
       (EvNewRealFile path extra slice rename).

Definition Chunk (sliceSize : Z) (parentPath targetPath carDir graphName : string)
    (parallel : Z) (cb : GraphBuildCallback) (rf : RealFile)
    (randomRename randomSelect : bool) : M (option string) :=
  call (ext_Chunk X sliceSize parentPath targetPath carDir graphName parallel
                  cb rf randomRename randomSelect)
       (EvChunk sliceSize parentPath targetPath carDir graphName parallel
                cb rf randomRename randomSelect).

Definition CarTo (carPath outputDir : string) (parallel : Z) : M (list string) :=
  call (ext_CarTo X carPath outputDir parallel) (EvCarTo carPath outputDir parallel).

Definition Merge (outputDir : string) (parallel : Z) : M (list string) :=
  call (ext_Merge X outputDir parallel) (EvMerge outputDir parallel).

(** [<-time.After(d)] *)
Definition After (seconds : Z) : M unit :=
  call (fun w => (tt, ext_Sleep X seconds w)) (fun _ => EvSleep seconds).

(** Building a callback is a call into the library as well. *)
Definition mkCallback (cb : GraphBuildCallback) : M GraphBuildCallback :=
  call (fun w => (cb, w)) EvCallback.

(** ** [restoreCmd] *)

(** The action of [restore]: the parallelism is checked, then the two
    phases run one after the other and the action returns [nil]. *)
Definition restoreCmd (c : RestoreFlags) : M unit :=
  let parallel := r_parallel c in
  let outputDir := r_output_dir c in
  let carPath := r_car_path c in
  if (parallel <=? 0)%Z then return_ (Some ErrParallel)
  else
    CarTo carPath outputDir parallel ;;;
    Merge outputDir parallel ;;;
    Println PrintCompleted ;;;
    return_ None.

(** ** [chunkCmd] *)

Definition running {A} : M A := fun w => mkRun Running w [].

(** The [for] loop of loop mode; [fuel] bounds the number of passes
    looked at, and the loop is still [Running] when it is spent. *)
Fixpoint chunkLoop (fuel : nat) (cfg : Config) (cfgPath : string) (sliceSize : Z)
    (parentPath targetPath carDir graphName : string) (parallel : Z)
    (cb : GraphBuildCallback) (rf : RealFile)
    (randomRenameSourceFile randomSelectFile : bool) : M unit :=
  match fuel with
  | O => running
  | S fuel' =>
      err <- Chunk sliceSize parentPath targetPath carDir graphName
                   (wrap64 parallel) cb rf randomRenameSourceFile randomSelectFile ;;
      match err with
      | Some e => return_ (Some (ErrFailedToChunk e))
      | None =>
          let sliceSize := wrap64 (sliceSize + 1) in
          let cfg := set_SliceSize cfg sliceSize in
          err <- SaveConfig cfg cfgPath ;;
          match err with
          | Some e => return_ (Some (ErrSaveConfig e))
          | None =>
              Infof (LogSliceSizeSet sliceSize) ;;;
              Infof LogWaiting ;;;
              After 60 ;;;
              chunkLoop fuel' cfg cfgPath sliceSize parentPath targetPath carDir
                        graphName parallel cb rf
                        randomRenameSourceFile randomSelectFile
          end
      end
  end.

(** The action of [chunk], statement by statement; [fuel] is for the
    loop of loop mode only. *)
Definition chunkCmd (fuel : nat) (c : ChunkFlags) : M unit :=
  let parallel := f_parallel c in
  let parentPath := f_parent_path c in
  let carDir := f_car_dir c in
  let graphName := f_graph_name c in
  let randomRenameSourceFile := f_random_rename_source_file c in
  let randomSelectFile := f_random_select_file c in
  ok <- ExistDir carDir ;;
  if negb ok then return_ (Some ErrCarDirMissing)
  else
  let cfgPath := f_config c in
  if String.eqb cfgPath "" then return_ (Some ErrConfigPathRequired)
  else
  loaded <- LoadConfig cfgPath ;;
  match loaded with
  | inl e => return_ (Some (ErrLoadConfig cfgPath e))
  | inr cfg =>
  Infof (LogConfigFile cfg) ;;;
  Infof (LogOldSliceSize (SliceSize cfg)) ;;;
  let cfg := set_SliceSize cfg (wrap64 (SliceSize cfg + 1)) in
  let sliceSize := SliceSize cfg in
  Infof (LogNewSliceSize sliceSize) ;;;
  if (sliceSize <=? 0)%Z then return_ (Some (ErrSliceSize sliceSize))
  else
  err <- SaveConfig cfg cfgPath ;;
  match err with
  | Some e => return_ (Some (ErrSaveConfig e))
  | None =>
  extra <-
    (if negb (Nat.eqb (String.length (ExtraFilePath cfg)) 0) then
       if String.eqb (ExtraFileSizeInOnePiece cfg) ""
       then return_ (Some ErrExtraSizeRequired)
       else
         parsed <- RAMInBytes (ExtraFileSizeInOnePiece cfg) ;;
         match parsed with
         | inl e => return_ (Some (ErrParseSize e))
         | inr n => ret (wrap64 n)
         end
     else ret 0%Z) ;;
  let extraFileSliceSize : Z := extra in
  if (wrap64 (sliceSize + extraFileSliceSize) >? 32 * Gib)%Z
  then return_ (Some (ErrExceeds32GiB sliceSize extraFileSliceSize))
  else
  Infof (LogExtra extraFileSliceSize randomRenameSourceFile randomSelectFile) ;;;
  made <- NewRealFile (TrimSuffix (ExtraFilePath cfg) "/") extraFileSliceSize
                      sliceSize randomRenameSourceFile ;;
  match made with
  | inl e => return_ (Some (ErrPassed e))
  | inr rf =>
  let targetPath := TrimSuffix (First (f_args c)) "/" in
  cb <-
    (if f_calc_commp c then
       mkCallback (CommPCallback carDir (f_rename c) (f_add_padding c))
     else if f_save_manifest c then
       mkCallback (CSVCallback carDir)
     else
       mkCallback ErrCallback) ;;
  let loop := f_loop c in
  Println (PrintLoop loop) ;;;
  if negb loop then
    Println PrintChunkingOnce ;;;
    err <- Chunk sliceSize parentPath targetPath carDir graphName
                 (wrap64 parallel) cb rf randomRenameSourceFile randomSelectFile ;;
    return_ (option_map ErrPassed err)
  else
    Println PrintLoopChunking ;;;
    chunkLoop fuel cfg cfgPath sliceSize parentPath targetPath carDir graphName
              parallel cb rf randomRenameSourceFile randomSelectFile
  end
  end
  end.

End Driver.

Arguments outcome {W RealFile A} r.
Arguments world {W RealFile A} r.
Arguments trace {W RealFile A} r.
Arguments ext_ExistDir {W RealFile} e.
Arguments ext_LoadConfig {W RealFile} e.
Arguments ext_SaveConfig {W RealFile} e.
Arguments ext_RAMInBytes {W RealFile} e.
Arguments ext_NewRealFile {W RealFile} e.
Arguments ext_Chunk {W RealFile} e.
Arguments ext_CarTo {W RealFile} e.
Arguments ext_Merge {W RealFile} e.
Arguments ext_Sleep {W RealFile} e.
Arguments EvExistDir {RealFile}.
Arguments EvLoadConfig {RealFile}.
Arguments EvSaveConfig {RealFile}.
Arguments EvRAMInBytes {RealFile}.
Arguments EvNewRealFile {RealFile}.
Arguments EvCallback {RealFile}.
Arguments EvChunk {RealFile}.
Arguments EvCarTo {RealFile}.
Arguments EvMerge {RealFile}.
Arguments EvSleep {RealFile}.
Arguments EvLog {RealFile}.
Arguments mkRun {W RealFile A}.
Arguments restoreCmd {W RealFile} X c w.
Arguments chunkCmd {W RealFile} X fuel c w.
Arguments chunkLoop {W RealFile} X fuel cfg cfgPath sliceSize parentPath
  targetPath carDir graphName parallel cb rf randomRenameSourceFile
  randomSelectFile w.

(** ** Reading a trace *)

Section Traces.

Context {RealFile : Type}.

Definition is_chunk (ev : event RealFile) : bool :=
  match ev with EvChunk _ _ _ _ _ _ _ _ _ _ _ => true | _ => false end.

Definition is_save (ev : event RealFile) : bool :=
  match ev with EvSaveConfig _ _ _ => true | _ => false end.

Definition is_load (ev : event RealFile) : bool :=
  match ev with EvLoadConfig _ _ => true | _ => false end.

Definition is_parse (ev : event RealFile) : bool :=
  match ev with EvRAMInBytes _ _ => true | _ => false end.

Definition is_newrealfile (ev : event RealFile) : bool :=
  match ev with EvNewRealFile _ _ _ _ _ => true | _ => false end.

Definition is_callback (ev : event RealFile) : bool :=
  match ev with EvCallback _ => true | _ => false end.

Definition is_sleep (ev : event RealFile) : bool :=
  match ev with EvSleep _ => true | _ => false end.

Definition is_restore_phase (ev : event RealFile) : bool :=
  match ev with EvCarTo _ _ _ _ | EvMerge _ _ _ => true | _ => false end.

(** The calls that write files: the configuration is saved, [Chunk]
    writes archives, [CarTo] and [Merge] write restored files. *)
Definition writes_files (ev : event RealFile) : bool :=
  is_save ev || is_chunk ev || is_restore_phase ev.

(** The callbacks built, in order. *)
Fixpoint callbacks (tr : list (event RealFile)) : list GraphBuildCallback :=
  match tr with
  | [] => []
  | EvCallback cb :: tr' => cb :: callbacks tr'
  | _ :: tr' => callbacks tr'
  end.

(** The callbacks handed to [Chunk], one per call. *)
Fixpoint chunk_callbacks (tr : list (event RealFile)) : list GraphBuildCallback :=
  match tr with
  | [] => []
  | EvChunk _ _ _ _ _ _ cb _ _ _ _ :: tr' => cb :: chunk_callbacks tr'
  | _ :: tr' => chunk_callbacks tr'
  end.

(** The extra-file slice sizes handed to [NewRealFile]. *)
Fixpoint extra_sizes (tr : list (event RealFile)) : list Z :=
  match tr with
  | [] => []
  | EvNewRealFile _ extra _ _ _ :: tr' => extra :: extra_sizes tr'
  | _ :: tr' => extra_sizes tr'
  end.

(** What a trace says about the slice size: which size was saved to the
    configuration file and which was handed to [Chunk], in order, each
    with whether the call went well. *)
Inductive size_use := Saved (n : Z) (ok : bool) | Chunked (n : Z) (ok : bool).

Definition went_well (res : option string) : bool :=
  match res with None => true | Some _ => false end.

Fixpoint size_uses (tr : list (event RealFile)) : list size_use :=
  match tr with
  | [] => []
  | EvSaveConfig cfg _ res :: tr' =>
      Saved (SliceSize cfg) (went_well res) :: size_uses tr'
  | EvChunk n _ _ _ _ _ _ _ _ _ res :: tr' =>
      Chunked n (went_well res) :: size_uses tr'
  | _ :: tr' => size_uses tr'
  end.


(** The answer of [Chunk], when the event is a call of [Chunk]. *)
Definition chunk_result (ev : event RealFile) : option (option string) :=
  match ev with
  | EvChunk _ _ _ _ _ _ _ _ _ _ res => Some res
  | _ => None
  end.

(** The failures the two restore phases met. *)
Fixpoint restore_failures (tr : list (event RealFile)) : list string :=
  match tr with
  | [] => []
  | EvCarTo _ _ _ fs :: tr' => fs ++ restore_failures tr'
  | EvMerge _ _ fs :: tr' => fs ++ restore_failures tr'
  | _ :: tr' => restore_failures tr'
  end.

End Traces.

(** ** A world to run the driver in *)

(** A small file system and a script of what [Chunk], [CarTo] and [Merge]
    will answer; used to run the actions on concrete inputs. *)
Record Sim := mkSim {
  sim_dirs : list string;
  sim_files : list (string * Config);
  sim_read_only : bool;
  sim_chunk : list (option string);
  sim_carto : list string;
  sim_merge : list string;
  sim_clock : Z
}.

Fixpoint sim_lookup (path : string) (files : list (string * Config)) : option Config :=
  match files with
  | [] => None
  | (p, cfg) :: files' => if String.eqb p path then Some cfg else sim_lookup path files'
  end.

(** The sizes the simulated [units.RAMInBytes] knows. *)
Definition sim_RAMInBytes (size : string) : string + Z :=
  if String.eqb size "1KiB" then inr (2 ^ 10)
  else if String.eqb size "1GiB" then inr (2 ^ 30)
  else if String.eqb size "16GiB" then inr (2 ^ 34)
  else if String.eqb size "4096PiB" then inr (2 ^ 62)
  else inl "invalid size".

Definition simX : Externals Sim unit :=
  {| ext_ExistDir := fun dir w => (existsb (String.eqb dir) (sim_dirs w), w);
     ext_LoadConfig := fun path w =>
       (match sim_lookup path (sim_files w) with
        | Some cfg => inr cfg
        | None => inl "no such file"
        end, w);
     ext_SaveConfig := fun cfg path w =>
       if sim_read_only w then (Some "read-only file system", w)
       else (None,
             mkSim (sim_dirs w) ((path, cfg) :: sim_files w) (sim_read_only w)
                   (sim_chunk w) (sim_carto w) (sim_merge w) (sim_clock w));
     ext_RAMInBytes := sim_RAMInBytes;
     ext_NewRealFile := fun _ _ _ _ w => (inr tt, w);
     ext_Chunk := fun _ _ _ _ _ _ _ _ _ _ w =>
       match sim_chunk w with
       | [] => (None, w)
       | res :: rest =>
           (res, mkSim (sim_dirs w) (sim_files w) (sim_read_only w) rest
                       (sim_carto w) (sim_merge w) (sim_clock w))
       end;
     ext_CarTo := fun _ _ _ w => (sim_carto w, w);
     ext_Merge := fun _ _ w => (sim_merge w, w);
     ext_Sleep := fun seconds w =>
       mkSim (sim_dirs w) (sim_files w) (sim_read_only w) (sim_chunk w)
             (sim_carto w) (sim_merge w) (sim_clock w + seconds) |}.

(** Flags of [graphsplit chunk --graph-name g --car-dir cars -c cfg.toml data/]
    with the defaults of the other flags. *)
Definition flags0 : ChunkFlags :=
  {| f_parallel := 2; f_graph_name := "g"; f_car_dir := "cars";
     f_parent_path := ""; f_save_manifest := true; f_calc_commp := true;
     f_rename := false; f_random_rename_source_file := false;
     f_add_padding := false; f_config := "cfg.toml"; f_loop := false;
     f_random_select_file := true; f_args := ["data/"] |}.

Definition with_loop (c : ChunkFlags) (loop : bool) : ChunkFlags :=
  {| f_parallel := f_parallel c; f_graph_name := f_graph_name c;
     f_car_dir := f_car_dir c; f_parent_path := f_parent_path c;
     f_save_manifest := f_save_manifest c; f_calc_commp := f_calc_commp c;
     f_rename := f_rename c;
     f_random_rename_source_file := f_random_rename_source_file c;
     f_add_padding := f_add_padding c; f_config := f_config c; f_loop := loop;
     f_random_select_file := f_random_select_file c; f_args := f_args c |}.

(** A world with the CAR directory and one configuration file. *)
Definition sim0 (cfg : Config) : Sim :=
  {| sim_dirs := ["cars"]; sim_files := [("cfg.toml", cfg)];
     sim_read_only := false; sim_chunk := []; sim_carto := [];
     sim_merge := []; sim_clock := 0 |}.

Definition cfg_of_size (n : Z) : Config :=
  {| SliceSize := n; ExtraFilePath := ""; ExtraFileSizeInOnePiece := "" |}.

(** The same world without the CAR directory. *)
Definition sim_no_dir (cfg : Config) : Sim :=
  {| sim_dirs := []; sim_files := [("cfg.toml", cfg)];
     sim_read_only := false; sim_chunk := []; sim_carto := [];
     sim_merge := []; sim_clock := 0 |}.

(** A world whose file system takes no write. *)
Definition sim_read_only_fs (cfg : Config) : Sim :=
  {| sim_dirs := ["cars"]; sim_files := [("cfg.toml", cfg)];
     sim_read_only := true; sim_chunk := []; sim_carto := [];
     sim_merge := []; sim_clock := 0 |}.

(** A world where the calls of [Chunk] answer as [script] says. *)
Definition sim_chunking (cfg : Config) (script : list (option string)) : Sim :=
  {| sim_dirs := ["cars"]; sim_files := [("cfg.toml", cfg)];
     sim_read_only := false; sim_chunk := script; sim_carto := [];
     sim_merge := []; sim_clock := 0 |}.

(** A configuration with an extra file. *)
Definition cfg_with_extra (n : Z) (size : string) : Config :=
  {| SliceSize := n; ExtraFilePath := "filler/"; ExtraFileSizeInOnePiece := size |}.

(** Flags of [graphsplit restore --car-path cars --output-dir out]. *)
Definition rflags0 : RestoreFlags :=
  {| r_car_path := "cars"; r_output_dir := "out"; r_parallel := 4 |}.

Definition with_parallel (c : RestoreFlags) (n : Z) : RestoreFlags :=
  {| r_car_path := r_car_path c; r_output_dir := r_output_dir c; r_parallel := n |}.

(** A world where one archive does not decode. *)
Definition sim_bad_archive : Sim :=
  {| sim_dirs := ["cars"; "out"]; sim_files := []; sim_read_only := false;
     sim_chunk := []; sim_carto := ["g-1.car: unexpected EOF"];
     sim_merge := []; sim_clock := 0 |}.


(** ** What the actions can do *)

Section Behaviour.

Context {W RealFile : Type} (X : Externals W RealFile).

(** [tr] followed by the run [r]. *)
Definition after (tr : list (event RealFile)) {A} (r : run W RealFile A)
  : run W RealFile A :=
  mkRun (outcome r) (world r) (tr ++ trace r).

Section Loop.

Variables (cfgPath parentPath targetPath carDir graphName : string)
          (parallel : Z) (cb : GraphBuildCallback) (rf : RealFile)
          (randomRename randomSelect : bool).

(** The call of [Chunk] made by a pass at slice size [s]. *)
Definition chunk_event (s : Z) (res : option string) : event RealFile :=
  EvChunk s parentPath targetPath carDir graphName (wrap64 parallel) cb rf
          randomRename randomSelect res.

(** What the loop can do with [n] passes in hand, from the configuration
    [cfg] and the slice size [s]: the events it leaves and how it ends. *)
Inductive loop_behaviour :
  nat -> Config -> Z -> list (event RealFile) -> step unit -> Prop :=
| lb_spent cfg s :
    loop_behaviour 0 cfg s [] Running
| lb_chunk_failed n cfg s e :
    loop_behaviour (S n) cfg s
      [chunk_event s (Some e)]
      (Returned (Some (ErrFailedToChunk e)))
| lb_save_failed n cfg s e :
    loop_behaviour (S n) cfg s
      [chunk_event s None;
       EvSaveConfig (set_SliceSize cfg (wrap64 (s + 1))) cfgPath (Some e)]
      (Returned (Some (ErrSaveConfig e)))
| lb_again n cfg s tr o :
    loop_behaviour n (set_SliceSize cfg (wrap64 (s + 1))) (wrap64 (s + 1)) tr o ->
    loop_behaviour (S n) cfg s
      (chunk_event s None
       :: EvSaveConfig (set_SliceSize cfg (wrap64 (s + 1))) cfgPath None
       :: EvLog (LogSliceSizeSet (wrap64 (s + 1)))
       :: EvLog LogWaiting
       :: EvSleep 60
       :: tr)
      o.

End Loop.

(** The callback the flags ask for. *)
Definition selected_callback (c : ChunkFlags) : GraphBuildCallback :=
  if f_calc_commp c then CommPCallback (f_car_dir c) (f_rename c) (f_add_padding c)
  else if f_save_manifest c then CSVCallback (f_car_dir c)
  else ErrCallback.

(** The slice size the command works with: the stored one, incremented. *)
Definition incremented (cfg : Config) : Z := wrap64 (SliceSize cfg + 1).

(** The extra-file slice size of a configuration, when it has one the
    driver accepts: 0 without an extra file path, else the parsed size. *)
Definition extraFileSliceSize_of (cfg : Config) : option Z :=
  if String.eqb (ExtraFilePath cfg) "" then Some 0
  else if String.eqb (ExtraFileSizeInOnePiece cfg) "" then None
  else match ext_RAMInBytes X (ExtraFileSizeInOnePiece cfg) with
       | inr n => Some (wrap64 n)
       | inl _ => None
       end.

Section Chunk.

Variables (c : ChunkFlags) (fuel : nat).

(** Events up to the check of the slice size. *)
Definition loaded_events (cfg : Config) : list (event RealFile) :=
  [EvExistDir (f_car_dir c) true;
   EvLoadConfig (f_config c) (inr cfg);
   EvLog (LogConfigFile cfg);
   EvLog (LogOldSliceSize (SliceSize cfg));
   EvLog (LogNewSliceSize (incremented cfg))].

(** Events up to the first save of the configuration, when it went well. *)
Definition saved_events (cfg : Config) : list (event RealFile) :=
  loaded_events cfg
  ++ [EvSaveConfig (set_SliceSize cfg (incremented cfg)) (f_config c) None].

(** The parse of the extra-file size, made with an extra file path only. *)
Definition parse_events (cfg : Config) : list (event RealFile) :=
  if String.eqb (ExtraFilePath cfg) "" then []
  else [EvRAMInBytes (ExtraFileSizeInOnePiece cfg)
                     (ext_RAMInBytes X (ExtraFileSizeInOnePiece cfg))].

Definition reader_event (cfg : Config) (extra : Z) (res : string + RealFile)
  : event RealFile :=
  EvNewRealFile (TrimSuffix (ExtraFilePath cfg) "/") extra (incremented cfg)
                (f_random_rename_source_file c) res.

(** Events up to the choice between one pass and the loop. *)
Definition ready_events (cfg : Config) (extra : Z) (rf : RealFile)
  : list (event RealFile) :=
  saved_events cfg ++ parse_events cfg
  ++ [EvLog (LogExtra extra (f_random_rename_source_file c)
                      (f_random_select_file c));
      reader_event cfg extra (inr rf);
      EvCallback (selected_callback c);
      EvLog (PrintLoop (f_loop c))].

(** The call of [Chunk] the command makes at slice size [s]. *)
Definition cmd_chunk_event (rf : RealFile) (s : Z) (res : option string)
  : event RealFile :=
  chunk_event (f_parent_path c) (TrimSuffix (First (f_args c)) "/")
              (f_car_dir c) (f_graph_name c) (f_parallel c)
              (selected_callback c) rf (f_random_rename_source_file c)
              (f_random_select_file c) s res.

(** Every way the [chunk] command can go: the events it leaves and how it
    ends, one case per [return] of the action and one for the loop. *)
Inductive chunk_behaviour : list (event RealFile) -> step unit -> Prop :=
| cb_no_car_dir :
    chunk_behaviour
      [EvExistDir (f_car_dir c) false]
      (Returned (Some ErrCarDirMissing))
| cb_no_config_path :
    f_config c = "" ->
    chunk_behaviour
      [EvExistDir (f_car_dir c) true]
      (Returned (Some ErrConfigPathRequired))
| cb_load_failed e :
    f_config c <> "" ->
    chunk_behaviour
      [EvExistDir (f_car_dir c) true; EvLoadConfig (f_config c) (inl e)]
      (Returned (Some (ErrLoadConfig (f_config c) e)))
| cb_slice_size cfg :
    f_config c <> "" ->
    incremented cfg <= 0 ->
    chunk_behaviour
      (loaded_events cfg)
      (Returned (Some (ErrSliceSize (incremented cfg))))
| cb_save_failed cfg e :
    f_config c <> "" ->
    0 < incremented cfg ->
    chunk_behaviour
      (loaded_events cfg
       ++ [EvSaveConfig (set_SliceSize cfg (incremented cfg)) (f_config c) (Some e)])
      (Returned (Some (ErrSaveConfig e)))
| cb_extra_size_required cfg :
    f_config c <> "" ->
    0 < incremented cfg ->
    ExtraFilePath cfg <> "" ->
    ExtraFileSizeInOnePiece cfg = "" ->
    chunk_behaviour
      (saved_events cfg)
      (Returned (Some ErrExtraSizeRequired))
| cb_parse_failed cfg e :
    f_config c <> "" ->
    0 < incremented cfg ->
    ExtraFilePath cfg <> "" ->
    ExtraFileSizeInOnePiece cfg <> "" ->
    ext_RAMInBytes X (ExtraFileSizeInOnePiece cfg) = inl e ->
    chunk_behaviour
      (saved_events cfg ++ parse_events cfg)
      (Returned (Some (ErrParseSize e)))
| cb_exceeds cfg extra :
    f_config c <> "" ->
    0 < incremented cfg ->
    extraFileSliceSize_of cfg = Some extra ->
    32 * Gib < wrap64 (incremented cfg + extra) ->
    chunk_behaviour
      (saved_events cfg ++ parse_events cfg)
      (Returned (Some (ErrExceeds32GiB (incremented cfg) extra)))
| cb_reader_failed cfg extra e :
    f_config c <> "" ->
    0 < incremented cfg ->
    extraFileSliceSize_of cfg = Some extra ->
    wrap64 (incremented cfg + extra) <= 32 * Gib ->
    chunk_behaviour
      (saved_events cfg ++ parse_events cfg
       ++ [EvLog (LogExtra extra (f_random_rename_source_file c)
                           (f_random_select_file c));
           reader_event cfg extra (inl e)])
      (Returned (Some (ErrPassed e)))
| cb_once cfg extra rf res :
    f_config c <> "" ->
    0 < incremented cfg ->
    extraFileSliceSize_of cfg = Some extra ->
    wrap64 (incremented cfg + extra) <= 32 * Gib ->
    f_loop c = false ->
    chunk_behaviour
      (ready_events cfg extra rf
       ++ [EvLog PrintChunkingOnce; cmd_chunk_event rf (incremented cfg) res])
      (Returned (option_map ErrPassed res))
| cb_loop cfg extra rf tail o :
    f_config c <> "" ->
    0 < incremented cfg ->
    extraFileSliceSize_of cfg = Some extra ->
    wrap64 (incremented cfg + extra) <= 32 * Gib ->
    f_loop c = true ->
    loop_behaviour (f_config c) (f_parent_path c)
                   (TrimSuffix (First (f_args c)) "/") (f_car_dir c)
                   (f_graph_name c) (f_parallel c) (selected_callback c) rf
                   (f_random_rename_source_file c) (f_random_select_file c)
                   fuel (set_SliceSize cfg (incremented cfg)) (incremented cfg)
                   tail o ->
    chunk_behaviour
      (ready_events cfg extra rf ++ EvLog PrintLoopChunking :: tail)
      o.

End Chunk.

End Behaviour.

Arguments chunk_event {RealFile}.
Arguments loop_behaviour {RealFile}.

(** ** The sentences of the specification that the driver does not meet *)

Section Statements.

Context {W RealFile : Type} (X : Externals W RealFile).

(** C1 as worded: a configuration whose slice size and extra-file slice
    size exceed 32 GiB together is rejected before any file is written,
    the configuration file included, and [Chunk] is not called. *)
Definition oversize_rejected_before_any_write
    (fuel : nat) (c : ChunkFlags) (w : W) : Prop :=
  let r := chunkCmd X fuel c w in
  forall cfg extra,
    In (EvLoadConfig (f_config c) (inr cfg)) (trace r) ->
    extraFileSliceSize_of X cfg = Some extra ->
    32 * Gib < SliceSize cfg + extra ->
    (exists e, outcome r = Returned (Some e)) /\
    filter is_chunk (trace r) = [] /\
    filter writes_files (trace r) = [].

(** C2 as worded: the result of [restore] is an error as soon as a phase
    met a failure, and [nil] only when there was none. *)
Definition restore_reports_failures (c : RestoreFlags) (w : W) : Prop :=
  let r := restoreCmd X c w in
  (restore_failures (trace r) <> [] -> exists e, outcome r = Returned (Some e)) /\
  (outcome r = Returned None -> restore_failures (trace r) = []).


(** C5 as worded: every invocation builds exactly one callback, the one
    the flags select, and hands it to [Chunk]. *)
Definition one_callback_every_invocation
    (fuel : nat) (c : ChunkFlags) (w : W) : Prop :=
  let r := chunkCmd X fuel c w in
  callbacks (trace r) = [selected_callback c] /\
  chunk_callbacks (trace r) <> [] /\
  Forall (eq (selected_callback c)) (chunk_callbacks (trace r)).


End Statements.

(** ** The calls of [Chunk] in a trace *)

Section Calls.

Context {RealFile : Type}.

(** One call of [Chunk]: its arguments and its answer. *)
Record chunk_call := mkChunkCall {
  cc_sliceSize : Z;
  cc_parentPath : string;
  cc_targetPath : string;
  cc_carDir : string;
  cc_graphName : string;
  cc_parallel : Z;
  cc_cb : GraphBuildCallback;
  cc_rf : RealFile;
  cc_randomRename : bool;
  cc_randomSelect : bool;
  cc_res : option string
}.

(** The calls of [Chunk], in order. *)
Fixpoint chunk_calls (tr : list (event RealFile)) : list chunk_call :=
  match tr with
  | [] => []
  | EvChunk s pp tp cd gn par cb rf rr rs res :: tr' =>
      mkChunkCall s pp tp cd gn par cb rf rr rs res :: chunk_calls tr'
  | _ :: tr' => chunk_calls tr'
  end.

End Calls.

Arguments chunk_call RealFile : clear implicits.

(** * Properties *)

(** ** Arithmetic of [int] *)

Lemma wrap64_id (z : Z) : in_int z -> wrap64 z = z.
Proof.
  unfold in_int, MinInt, MaxInt, wrap64. intros H.
  rewrite Z.mod_small; lia.
Qed.

Lemma wrap64_in_int (z : Z) : in_int (wrap64 z).
Proof.
  unfold in_int, MinInt, MaxInt, wrap64.
  pose proof (Z.mod_pos_bound (z + 2 ^ 63) (2 ^ 64) ltac:(lia)). lia.
Qed.

(** The increment of a slice size gives a value that is not positive
    exactly from a negative size, or from the largest [int], where it
    wraps around. *)
Lemma incr_not_positive (n : Z) :
  in_int n -> (wrap64 (n + 1) <= 0 <-> n <= -1 \/ n = MaxInt).
Proof.
  intros H. unfold in_int, MinInt, MaxInt in *.
  destruct (Z.eq_dec n (2 ^ 63 - 1)) as [-> | Hne].
  - vm_compute. split; [intros _; right; reflexivity | intros _; discriminate].
  - rewrite wrap64_id by (unfold in_int, MinInt, MaxInt; lia). lia.
Qed.

Lemma length_zero_eqb (s : string) :
  Nat.eqb (String.length s) 0 = String.eqb s "".
Proof. destruct s; reflexivity. Qed.

Section Properties.

Context {W RealFile : Type} (X : Externals W RealFile).

(** ** Running an action one call at a time *)

Lemma outcome_after tr {A} (r : run W RealFile A) : outcome (after tr r) = outcome r.
Proof. reflexivity. Qed.

Lemma trace_after tr {A} (r : run W RealFile A) : trace (after tr r) = tr ++ trace r.
Proof. reflexivity. Qed.

Lemma world_after tr {A} (r : run W RealFile A) : world (after tr r) = world r.
Proof. reflexivity. Qed.

Lemma after_after t1 t2 {A} (r : run W RealFile A) :
  after t1 (after t2 r) = after (t1 ++ t2) r.
Proof. unfold after; cbn. now rewrite app_assoc. Qed.

Lemma bind_call {A B} (h : W -> A * W) ev (k : A -> M W RealFile B) w :
  bind W RealFile (call W RealFile h ev) k w
  = after [ev (fst (h w))] (k (fst (h w)) (snd (h w))).
Proof. reflexivity. Qed.

Lemma bind_emit {B} ev (k : unit -> M W RealFile B) w :
  bind W RealFile (emit W RealFile ev) k w = after [ev] (k tt w).
Proof. reflexivity. Qed.

Lemma bind_ret {A B} (a : A) (k : A -> M W RealFile B) w :
  bind W RealFile (ret W RealFile a) k w = after [] (k a w).
Proof. reflexivity. Qed.

Lemma bind_return {A B} e (k : A -> M W RealFile B) w :
  bind W RealFile (return_ W RealFile e) k w = mkRun (Returned e) w [].
Proof. reflexivity. Qed.

Lemma bind_bind {A B C} (m : M W RealFile A) (k : A -> M W RealFile B)
    (k' : B -> M W RealFile C) w :
  bind W RealFile (bind W RealFile m k) k' w
  = bind W RealFile m (fun a => bind W RealFile (k a) k') w.
Proof.
  unfold bind. destruct (m w) as [[a | e |] w1 t1]; cbn; try reflexivity.
  destruct (k a w1) as [[b | e |] w2 t2]; cbn; try reflexivity.
  now rewrite app_assoc.
Qed.

Ltac exec_call :=
  rewrite !bind_call;
  cbn [fst snd];
  try match goal with
      | |- context [fst (?h ?w)] =>
          let E := fresh "E" in destruct (h w) as [? ?] eqn:E; cbn [fst snd]
      end.

Ltac exec_branch :=
  match goal with
  | |- context [bind _ _ (if negb ?b then _ else _) _ _] => destruct b eqn:?
  | |- context [(if negb ?b then _ else _) _] => destruct b eqn:?
  | |- context [bind _ _ (if ?b then _ else _) _ _] => destruct b eqn:?
  | |- context [bind _ _ (match ?x with inl _ => _ | inr _ => _ end) _ _] =>
      destruct x eqn:?
  | |- context [(if ?b then _ else _) _] => destruct b eqn:?
  | |- context [(match ?x with inl _ => _ | inr _ => _ end) _] => destruct x eqn:?
  | |- context [(match ?x with Some _ => _ | None => _ end) _] => destruct x eqn:?
  end.

Ltac exec_step :=
  first [ rewrite !bind_bind
        | exec_call
        | rewrite !bind_emit
        | rewrite !bind_ret
        | rewrite !bind_return
        | exec_branch ].

Ltac exec :=
  unfold chunkCmd, restoreCmd, ExistDir, LoadConfig, SaveConfig, RAMInBytes,
    NewRealFile, Chunk, CarTo, Merge, After, mkCallback, Infof, Println;
  cbn [negb];
  repeat (exec_step; cbn [negb]);
  unfold return_, running;
  rewrite ?after_after;
  rewrite ?outcome_after, ?trace_after, ?world_after;
  cbn [outcome world trace app option_map SliceSize ExtraFilePath
       ExtraFileSizeInOnePiece set_SliceSize].

(** ** The actions do what the behaviours say *)

Lemma chunkLoop_behaviour cfgPath parentPath targetPath carDir graphName
    parallel cb rf randomRename randomSelect (fuel : nat) : forall cfg s w,
  let r := chunkLoop X fuel cfg cfgPath s parentPath targetPath carDir graphName
                     parallel cb rf randomRename randomSelect w in
  loop_behaviour cfgPath parentPath targetPath carDir graphName parallel cb rf
                 randomRename randomSelect fuel cfg s (trace r) (outcome r).
Proof.
  induction fuel as [| n IH]; intros cfg s w; cbn [chunkLoop].
  - constructor.
  - exec; try solve [constructor].
    apply lb_again. apply IH.
Qed.

Lemma chunk_behaviour_eq c fuel tr tr' o o' :
  chunk_behaviour X c fuel tr' o' -> tr = tr' -> o = o' ->
  chunk_behaviour X c fuel tr o.
Proof. now intros H -> ->. Qed.

(** What a boolean test of the action says. *)
Ltac bool_facts :=
  repeat match goal with
    | H : context [Nat.eqb (String.length _) 0] |- _ =>
        rewrite length_zero_eqb in H
    end;
  repeat match goal with
    | H : String.eqb ?a ?b = true |- _ =>
        lazymatch goal with
        | _ : a = b |- _ => fail
        | _ => pose proof (proj1 (String.eqb_eq a b) H)
        end
    | H : String.eqb ?a ?b = false |- _ =>
        lazymatch goal with
        | _ : a <> b |- _ => fail
        | _ => pose proof (proj1 (String.eqb_neq a b) H)
        end
    | H : Z.leb ?a ?b = true |- _ =>
        lazymatch goal with
        | _ : a <= b |- _ => fail
        | _ => pose proof (proj1 (Z.leb_le a b) H)
        end
    | H : Z.leb ?a ?b = false |- _ =>
        lazymatch goal with
        | _ : b < a |- _ => fail
        | _ => pose proof (proj1 (Z.leb_gt a b) H)
        end
    | H : Z.gtb ?a ?b = true |- _ =>
        lazymatch goal with
        | _ : b < a |- _ => fail
        | _ => pose proof (proj1 (Z.gtb_lt a b) H)
        end
    | H : Z.gtb ?a ?b = false |- _ =>
        lazymatch goal with
        | _ : a <= b |- _ => fail
        | _ =>
            let H' := fresh in
            pose proof H as H'; rewrite Z.gtb_ltb in H';
            apply Z.ltb_ge in H'
        end
    end.

Ltac unfold_events :=
  unfold ready_events, saved_events, loaded_events, parse_events, reader_event,
    cmd_chunk_event, chunk_event, selected_callback, extraFileSliceSize_of,
    incremented in *.

Ltac side_condition :=
  unfold_events;
  cbn [app SliceSize ExtraFilePath ExtraFileSizeInOnePiece set_SliceSize] in *;
  repeat match goal with
    | H : _ = true |- _ => rewrite H
    | H : _ = false |- _ => rewrite H
    | H : _ = inl _ |- _ => rewrite H
    | H : _ = inr _ |- _ => rewrite H
    end;
  first [ assumption | reflexivity | discriminate | lia ].

Ltac by_case lem :=
  eapply chunk_behaviour_eq; [ eapply lem | | ].

Ltac pick_case :=
  lazymatch goal with
  | |- chunk_behaviour _ _ _ _ (Returned (Some ErrCarDirMissing)) =>
      by_case cb_no_car_dir
  | |- chunk_behaviour _ _ _ _ (Returned (Some ErrConfigPathRequired)) =>
      by_case cb_no_config_path
  | |- chunk_behaviour _ _ _ _ (Returned (Some (ErrLoadConfig _ _))) =>
      by_case cb_load_failed
  | |- chunk_behaviour ?X ?c ?fuel _ ?o =>
      match goal with
      | E : ext_LoadConfig _ _ _ = (inr ?cfg, _) |- _ =>
          lazymatch o with
          | Returned (Some (ErrSliceSize _)) =>
              by_case (@cb_slice_size _ _ X c fuel cfg)
          | Returned (Some (ErrSaveConfig _)) =>
              by_case (@cb_save_failed _ _ X c fuel cfg)
          | Returned (Some ErrExtraSizeRequired) =>
              by_case (@cb_extra_size_required _ _ X c fuel cfg)
          | Returned (Some (ErrParseSize _)) =>
              by_case (@cb_parse_failed _ _ X c fuel cfg)
          | Returned (Some (ErrExceeds32GiB _ _)) =>
              by_case (@cb_exceeds _ _ X c fuel cfg)
          | Returned (Some (ErrPassed _)) =>
              by_case (@cb_reader_failed _ _ X c fuel cfg)
          | Returned (option_map _ _) =>
              by_case (@cb_once _ _ X c fuel cfg)
          | outcome _ =>
              by_case (@cb_loop _ _ X c fuel cfg)
          end
      end
  end.

Lemma chunkCmd_behaviour (fuel : nat) (c : ChunkFlags) (w : W) :
  chunk_behaviour X c fuel (trace (chunkCmd X fuel c w))
                           (outcome (chunkCmd X fuel c w)).
Proof.
  exec; bool_facts.
  all: try solve [pick_case; first [ side_condition | eapply chunkLoop_behaviour ]].
Qed.

Lemma chunkCmd_first_event (fuel : nat) (c : ChunkFlags) (w : W) :
  exists rest,
    trace (chunkCmd X fuel c w)
    = EvExistDir (f_car_dir c) (fst (ext_ExistDir X (f_car_dir c) w)) :: rest.
Proof.
  unfold chunkCmd, ExistDir. rewrite bind_call, trace_after.
  eexists. reflexivity.
Qed.



(** Without loop mode the command returns, whatever the passes in hand. *)
Lemma chunkCmd_once_returns (fuel : nat) (c : ChunkFlags) (w : W) :
  f_loop c = false ->
  exists e, outcome (chunkCmd X fuel c w) = Returned e.
Proof.
  intros Hloop.
  destruct (chunkCmd_behaviour fuel c w); eauto. congruence.
Qed.

(** ** Lists of events *)

Lemma filter_nil_not_In {A} (P : A -> bool) (l : list A) (x : A) :
  filter P l = [] -> In x l -> P x = true -> False.
Proof.
  intros Hf Hin Hx.
  assert (In x (filter P l)) as H by (apply filter_In; auto).
  rewrite Hf in H. destruct H.
Qed.



Lemma split_cons {A} (a : A) (l pre post : list A) (x : A) :
  a :: l = pre ++ x :: post ->
  (pre = [] /\ a = x /\ l = post) \/
  (exists pre', pre = a :: pre' /\ l = pre' ++ x :: post).
Proof.
  destruct pre as [| b pre]; cbn; intros H; inversion H; subst.
  - left. auto.
  - right. eauto.
Qed.

(** Where an element of a list written out can be. *)
Ltac split_list H :=
  repeat match type of H with
    | [] = _ ++ _ :: _ => exfalso; exact (app_cons_not_nil _ _ _ H)
    | _ :: _ = _ ++ _ :: _ =>
        apply split_cons in H;
        destruct H as [(-> & <- & <-) | (? & -> & H)]
    end.

(** ** The loop leaves passes only *)

Section LoopFacts.

Variables (cfgPath parentPath targetPath carDir graphName : string)
          (parallel : Z) (cb : GraphBuildCallback) (rf : RealFile)
          (randomRename randomSelect : bool).

Local Abbreviation loop :=
  (loop_behaviour cfgPath parentPath targetPath carDir graphName
                  parallel cb rf randomRename randomSelect).

Lemma loop_callbacks n cfg s tr o :
  loop n cfg s tr o ->
  callbacks tr = [] /\ Forall (eq cb) (chunk_callbacks tr).
Proof.
  induction 1; cbn; auto.
  destruct IHloop_behaviour. auto.
Qed.

Lemma loop_no_setup n cfg s tr o :
  loop n cfg s tr o ->
  filter is_load tr = [] /\ filter is_parse tr = [] /\
  filter is_newrealfile tr = [] /\ extra_sizes tr = [].
Proof.
  induction 1; cbn; auto.
Qed.

Lemma loop_first_pass n cfg s tr o :
  loop n cfg s tr o ->
  (tr = [] /\ o = Running /\ n = 0%nat) \/
  (exists res rest, tr = chunk_event parentPath targetPath carDir graphName
                                    parallel cb rf randomRename randomSelect
                                    s res :: rest).
Proof.
  destruct 1; [left; auto | right; eauto ..].
Qed.

Lemma loop_outcome n cfg s tr o :
  loop n cfg s tr o -> o = Running \/ exists e, o = Returned (Some e).
Proof.
  induction 1; eauto.
Qed.



(** The errors the loop returns. *)
Lemma loop_errors n cfg s tr o :
  loop n cfg s tr o ->
  forall e, o = Returned (Some e) ->
            (exists x, e = ErrFailedToChunk x) \/ (exists x, e = ErrSaveConfig x).
Proof.
  induction 1; intros e0 He; try discriminate; auto;
    inversion He; subst; eauto.
Qed.



End LoopFacts.

(** ** Reading the behaviours *)

(** Case analysis on the way a run of [chunk] went. *)
Ltac behaviours r B :=
  match goal with
  | r' := chunkCmd _ ?fuel ?c ?w |- _ =>
      constr_eq r r';
      pose proof (chunkCmd_behaviour fuel c w) as B;
      fold r in B; clearbody r;
      destruct r as [?o ?w' ?tr];
      cbn [outcome world trace] in *
  end.

Ltac events :=
  unfold_events;
  repeat match goal with
    | H : context [if String.eqb ?a ?b then _ else _] |- _ =>
        destruct (String.eqb a b) eqn:?
    | |- context [if String.eqb ?a ?b then _ else _] =>
        destruct (String.eqb a b) eqn:?
    end;
  cbn [app In filter is_chunk is_save is_load is_parse is_newrealfile
       is_callback is_sleep callbacks chunk_callbacks extra_sizes size_uses
       went_well SliceSize ExtraFilePath ExtraFileSizeInOnePiece
       set_SliceSize] in *.

Ltac in_list := repeat first [ left; reflexivity | right ].

(** The configuration a run loaded is the one its events speak of. *)
Ltac find_config H :=
  repeat match type of H with
    | _ \/ _ => destruct H as [H | H]
    | EvLoadConfig _ _ = EvLoadConfig _ _ => inversion H; subst; clear H
    | False => destruct H
    | _ = _ => discriminate H
    | In _ _ =>
        exfalso;
        match goal with
        | L : loop_behaviour _ _ _ _ _ _ _ _ _ _ _ _ _ _ _ |- _ =>
            eapply (filter_nil_not_In is_load);
            [ exact (proj1 (loop_no_setup _ _ _ _ _ _ _ _ _ _ _ _ _ _ _ L))
            | exact H
            | reflexivity ]
        end
    end.

(** Which event of a trace written out a given event is. *)
Ltac in_cases H :=
  repeat match type of H with
    | _ \/ _ => destruct H as [H | H]
    | False => destruct H
    | In _ _ => idtac
    | _ = _ => first [ discriminate H | inversion H; subst; clear H ]
    end.

Ltac loop_facts :=
  match goal with
  | L : loop_behaviour _ _ _ _ _ _ _ _ _ _ _ _ _ _ _ |- _ =>
      let Fload := fresh "Fload" in
      let Fparse := fresh "Fparse" in
      let Fnew := fresh "Fnew" in
      let Fextra := fresh "Fextra" in
      let Fcb := fresh "Fcb" in
      let Fccb := fresh "Fccb" in
      let Fout := fresh "Fout" in
      pose proof (loop_no_setup _ _ _ _ _ _ _ _ _ _ _ _ _ _ _ L)
        as (Fload & Fparse & Fnew & Fextra);
      pose proof (loop_callbacks _ _ _ _ _ _ _ _ _ _ _ _ _ _ _ L)
        as (Fcb & Fccb);
      pose proof (loop_outcome _ _ _ _ _ _ _ _ _ _ _ _ _ _ _ L) as Fout
  end.

(** An event the loop cannot leave is not in its trace. *)
Ltac not_in_loop H :=
  lazymatch type of H with
  | In _ _ =>
      exfalso;
      first [ eapply (filter_nil_not_In is_parse); [eassumption | exact H | reflexivity]
            | eapply (filter_nil_not_In is_load); [eassumption | exact H | reflexivity]
            | eapply (filter_nil_not_In is_newrealfile); [eassumption | exact H | reflexivity] ]
  end.

Lemma wrap64_oversize (s extra : Z) :
  32 * Gib < s + extra <= MaxInt -> wrap64 (s + extra) = s + extra.
Proof.
  intros H. apply wrap64_id. unfold in_int, MinInt, MaxInt, Gib in *. lia.
Qed.

(** Two readings of the same extra-file size agree. *)
Ltac same_extra :=
  repeat match goal with
    | H : ?a = inl _, H' : context [match ?a with inl _ => _ | inr _ => _ end] |- _ =>
        rewrite H in H'
    | H : ?a = inr _, H' : context [match ?a with inl _ => _ | inr _ => _ end] |- _ =>
        rewrite H in H'
    | H : context [match ?a with inl _ => _ | inr _ => _ end] |- _ =>
        destruct a eqn:?
    | H : Some _ = Some _ |- _ => inversion H; subst; clear H
    | H : None = Some _ |- _ => discriminate H
    | H : Some _ = None |- _ => discriminate H
    end.

Lemma selected_callback_cases (c : ChunkFlags) :
  (f_calc_commp c = true /\
   selected_callback c
   = CommPCallback (f_car_dir c) (f_rename c) (f_add_padding c)) \/
  (f_calc_commp c = false /\ f_save_manifest c = true /\
   selected_callback c = CSVCallback (f_car_dir c)) \/
  (f_calc_commp c = false /\ f_save_manifest c = false /\
   selected_callback c = ErrCallback).
Proof.
  unfold selected_callback.
  destruct (f_calc_commp c), (f_save_manifest c); auto.
Qed.


(** In loop mode a run either fails before the first pass, or is a setup
    without any call of [Chunk] followed by the loop. *)
Lemma loop_mode_shape (fuel : nat) (c : ChunkFlags) tr o :
  chunk_behaviour X c fuel tr o ->
  f_loop c = true ->
  (filter is_chunk tr = [] /\ exists e, o = Returned (Some e)) \/
  (exists setup cfg rf tail,
     tr = setup ++ tail /\
     filter is_chunk setup = [] /\
     loop_behaviour (f_config c) (f_parent_path c)
                    (TrimSuffix (First (f_args c)) "/") (f_car_dir c)
                    (f_graph_name c) (f_parallel c) (selected_callback c) rf
                    (f_random_rename_source_file c) (f_random_select_file c)
                    fuel (set_SliceSize cfg (incremented cfg)) (incremented cfg)
                    tail o).
Proof.
  intros B Hloop.
  destruct B; try congruence;
    try solve [ left; split; [ | eauto ];
                unfold saved_events, loaded_events, parse_events, reader_event;
                repeat match goal with
                  | |- context [if String.eqb ?a ?b then _ else _] =>
                      destruct (String.eqb a b) eqn:?
                  end; reflexivity ].
  right.
  exists (ready_events X c cfg extra rf ++ [EvLog PrintLoopChunking]), cfg, rf, tail.
  split; [ | split; [ | assumption ]].
  - rewrite <- app_assoc. reflexivity.
  - unfold ready_events, saved_events, loaded_events, parse_events, reader_event.
    destruct (String.eqb (ExtraFilePath cfg) ""); reflexivity.
Qed.

(** ** The [restore] command *)

(** The whole run of [restore] when the parallelism is accepted. *)
Lemma restoreCmd_accepted (c : RestoreFlags) (w : W) :
  0 < r_parallel c ->
  let carto := ext_CarTo X (r_car_path c) (r_output_dir c) (r_parallel c) w in
  let merge := ext_Merge X (r_output_dir c) (r_parallel c) (snd carto) in
  restoreCmd X c w
  = mkRun (Returned None) (snd merge)
          [EvCarTo (r_car_path c) (r_output_dir c) (r_parallel c) (fst carto);
           EvMerge (r_output_dir c) (r_parallel c) (fst merge);
           EvLog PrintCompleted].
Proof.
  intros Hpos. unfold restoreCmd.
  destruct (Z.leb_spec (r_parallel c) 0) as [Hle | _]; [lia |].
  unfold CarTo, Merge, Println.
  rewrite bind_call, bind_call, bind_emit. reflexivity.
Qed.

Lemma restoreCmd_refused (c : RestoreFlags) (w : W) :
  r_parallel c <= 0 ->
  restoreCmd X c w = mkRun (Returned (Some ErrParallel)) w [].
Proof.
  intros Hle. unfold restoreCmd.
  destruct (Z.leb_spec (r_parallel c) 0) as [_ | Hlt]; [reflexivity | lia].
Qed.

(** C7: with a parallelism that is not positive, [restore] fails before
    either phase is called: it returns the parallelism error and has made
    no call at all; with a positive parallelism the check passes, both
    phases are called and the command returns [nil]. *)
Theorem restore_checks_parallelism (c : RestoreFlags) (w : W) :
  (r_parallel c <= 0 ->
     outcome (restoreCmd X c w) = Returned (Some ErrParallel) /\
     trace (restoreCmd X c w) = [] /\
     world (restoreCmd X c w) = w) /\
  (0 < r_parallel c ->
     outcome (restoreCmd X c w) = Returned None /\
     exists failed failed',
       trace (restoreCmd X c w)
       = [EvCarTo (r_car_path c) (r_output_dir c) (r_parallel c) failed;
          EvMerge (r_output_dir c) (r_parallel c) failed';
          EvLog PrintCompleted]).
Proof.
  split; intros H.
  - rewrite restoreCmd_refused by assumption. auto.
  - rewrite restoreCmd_accepted by assumption. split; [ reflexivity | ].
    do 2 eexists. reflexivity.
Qed.

(** C6: in every run of [restore] that returns [nil], [CarTo] is called
    on the archive path first and has answered before [Merge] is called:
    [Merge] starts from the world [CarTo] left; both get the same output
    directory and the same parallelism. *)
Theorem restore_then_merge (c : RestoreFlags) (w : W) :
  outcome (restoreCmd X c w) = Returned None ->
  let carto := ext_CarTo X (r_car_path c) (r_output_dir c) (r_parallel c) w in
  let merge := ext_Merge X (r_output_dir c) (r_parallel c) (snd carto) in
  trace (restoreCmd X c w)
  = [EvCarTo (r_car_path c) (r_output_dir c) (r_parallel c) (fst carto);
     EvMerge (r_output_dir c) (r_parallel c) (fst merge);
     EvLog PrintCompleted] /\
  world (restoreCmd X c w) = snd merge.
Proof.
  intros Hok.
  destruct (Z.le_gt_cases (r_parallel c) 0) as [Hle | Hlt].
  - rewrite restoreCmd_refused in Hok by assumption. discriminate.
  - intros carto merge. rewrite restoreCmd_accepted by lia. auto.
Qed.

(** C2, as amended: the result of [restore] says nothing of the failures
    of the two phases.  With a positive parallelism it is [nil] whatever
    [CarTo] and [Merge] report, and the only error the command returns is
    the parallelism error, before any archive is read. *)
Theorem restore_result_ignores_failures (c : RestoreFlags) (w : W) :
  (0 < r_parallel c ->
   let carto := ext_CarTo X (r_car_path c) (r_output_dir c) (r_parallel c) w in
   let merge := ext_Merge X (r_output_dir c) (r_parallel c) (snd carto) in
   restore_failures (trace (restoreCmd X c w)) = fst carto ++ fst merge /\
   outcome (restoreCmd X c w) = Returned None) /\
  (forall e, outcome (restoreCmd X c w) = Returned (Some e) ->
             e = ErrParallel /\ r_parallel c <= 0 /\
             trace (restoreCmd X c w) = []).
Proof.
  split.
  - intros H carto merge. rewrite restoreCmd_accepted by assumption.
    cbn [trace outcome restore_failures]. now rewrite app_nil_r.
  - intros e He.
    destruct (Z.le_gt_cases (r_parallel c) 0) as [Hle | Hlt].
    + rewrite restoreCmd_refused in * by assumption.
      cbn in He. inversion He. auto.
    + rewrite restoreCmd_accepted in He by lia. discriminate.
Qed.

(** ** The [chunk] command *)

(** C9: when the CAR directory does not exist, or when the path of the
    configuration file is empty, [chunk] fails having only looked for the
    directory: no configuration is loaded and [Chunk] is not called. *)
Theorem chunk_fails_before_config_is_loaded (fuel : nat) (c : ChunkFlags) (w : W) :
  let r := chunkCmd X fuel c w in
  fst (ext_ExistDir X (f_car_dir c) w) = false \/ f_config c = "" ->
  outcome r
  = Returned (Some (if fst (ext_ExistDir X (f_car_dir c) w)
                    then ErrConfigPathRequired else ErrCarDirMissing)) /\
  trace r = [EvExistDir (f_car_dir c) (fst (ext_ExistDir X (f_car_dir c) w))] /\
  filter is_load (trace r) = [] /\
  filter is_chunk (trace r) = [].
Proof.
  intros r H.
  destruct (chunkCmd_first_event fuel c w) as [rest Hfirst]. fold r in Hfirst.
  behaviours r B.
  destruct B; events; inversion Hfirst; subst;
    try solve [ intuition congruence ];
    repeat split; auto;
    match goal with
    | H0 : _ = fst _ |- _ => rewrite <- H0 in *
    end; intuition congruence.
Qed.

(** C4: when the slice size is not positive ([sliceSize <= 0], the
    variable the command tests, which holds the stored size after its
    increment), [chunk] fails with the slice-size error having done
    nothing: the run is the load of the configuration and its log lines,
    the configuration is not saved, the extra-file reader is not made and
    [Chunk] is not called.  When the slice size is positive the command
    goes on and saves the configuration. *)
Theorem nonpositive_incremented_size_rejected
    (fuel : nat) (c : ChunkFlags) (w : W) (cfg : Config) :
  let r := chunkCmd X fuel c w in
  In (EvLoadConfig (f_config c) (inr cfg)) (trace r) ->
  (incremented cfg <= 0 ->
     outcome r = Returned (Some (ErrSliceSize (incremented cfg))) /\
     trace r = loaded_events c cfg /\
     filter is_save (trace r) = [] /\
     filter is_newrealfile (trace r) = [] /\
     filter is_chunk (trace r) = []) /\
  (0 < incremented cfg ->
     exists res,
       In (EvSaveConfig (set_SliceSize cfg (incremented cfg)) (f_config c) res)
          (trace r)).
Proof.
  intros r Hload. behaviours r B.
  destruct B; events; find_config Hload.
  all: split; intros Hsize; try lia; auto 10.
  all: eexists; in_list.
Qed.

(** C1, as amended: a configuration whose slice size (the stored one,
    incremented) and extra-file slice size exceed 32 GiB together, the sum
    still being an [int], makes [chunk] fail without making the extra-file
    reader and without calling [Chunk]; but files are touched before the
    rejection: the configuration has been loaded, and when the slice size
    is positive it is saved with the incremented size before the check,
    which gives the 32 GiB error when the save went well. *)
Theorem oversize_rejected_after_config_saved
    (fuel : nat) (c : ChunkFlags) (w : W) (cfg : Config) (extra : Z) :
  let r := chunkCmd X fuel c w in
  In (EvLoadConfig (f_config c) (inr cfg)) (trace r) ->
  extraFileSliceSize_of X cfg = Some extra ->
  32 * Gib < incremented cfg + extra <= MaxInt ->
  (exists e, outcome r = Returned (Some e)) /\
  filter is_chunk (trace r) = [] /\
  filter is_newrealfile (trace r) = [] /\
  (0 < incremented cfg ->
     exists res,
       In (EvSaveConfig (set_SliceSize cfg (incremented cfg)) (f_config c) res)
          (trace r) /\
       (res = None ->
        outcome r = Returned (Some (ErrExceeds32GiB (incremented cfg) extra)))).
Proof.
  intros r Hload Hextra Hsum. behaviours r B.
  pose proof (wrap64_oversize _ _ Hsum) as Hwrap.
  destruct B; events; find_config Hload; bool_facts; same_extra;
    try congruence; try lia.
  all: repeat split; eauto; intros Hpos; try lia.
  all: eexists; split; [ in_list | intros; congruence ].
Qed.


(** A run in which no extra-file reader was made has built no callback
    and made no call of [Chunk], and has returned an error. *)
Lemma no_reader_no_callback (fuel : nat) (c : ChunkFlags) tr o :
  chunk_behaviour X c fuel tr o ->
  (forall path extra s rename rf,
     ~ In (EvNewRealFile path extra s rename (inr rf)) tr) ->
  callbacks tr = [] /\ chunk_callbacks tr = [] /\
  exists e, o = Returned (Some e).
Proof.
  intros B Hno.
  destruct B;
    unfold ready_events, saved_events, loaded_events, parse_events,
      reader_event, cmd_chunk_event, chunk_event in *;
    repeat match goal with
      | |- context [if String.eqb ?a ?b then _ else _] =>
          destruct (String.eqb a b) eqn:?
      end;
    cbn [app callbacks chunk_callbacks].
  all: try solve [ eauto ].
  all: exfalso; eapply Hno; cbn [app In]; in_list.
Qed.

(** The callback is built right after the extra-file reader was made,
    and neither before nor later is another one built; no call of [Chunk]
    comes before it. *)
Lemma callback_follows_reader (fuel : nat) (c : ChunkFlags) tr o :
  chunk_behaviour X c fuel tr o ->
  forall path extra s rename rf,
    In (EvNewRealFile path extra s rename (inr rf)) tr ->
    exists pre post,
      tr = pre ++ EvNewRealFile path extra s rename (inr rf)
               :: EvCallback (selected_callback c) :: post /\
      callbacks pre = [] /\ chunk_callbacks pre = [] /\
      filter is_newrealfile pre = [] /\
      callbacks post = [] /\ filter is_newrealfile post = [].
Proof.
  intros B path extra0 s rename rf0 Hin.
  destruct B; try loop_facts;
    unfold ready_events, saved_events, loaded_events, parse_events,
      reader_event, cmd_chunk_event, chunk_event in *;
    repeat match goal with
      | H : context [if String.eqb ?a ?b then _ else _] |- _ =>
          destruct (String.eqb a b) eqn:?
      end;
    cbn [app In] in *;
    in_cases Hin; try not_in_loop Hin.
  all: first [ eexists [_; _; _; _; _; _; _], _; split; [ reflexivity | ]
             | eexists [_; _; _; _; _; _; _; _], _; split; [ reflexivity | ] ].
  all: cbn [app callbacks chunk_callbacks filter is_newrealfile].
  all: repeat split; auto.
Qed.

(** C5, as amended: a run of [chunk] that gets as far as making the
    extra-file reader builds exactly one callback, right after the reader,
    the one the flags select (commitment calculation with calc-commp, else
    manifest recording with save-manifest, else error propagation), and
    every call of [Chunk] gets it.  A run that fails before, in which no
    reader was made, builds no callback and does not call [Chunk]; no run
    builds more than one. *)
Theorem one_callback_once_reader_is_made (fuel : nat) (c : ChunkFlags) (w : W) :
  let r := chunkCmd X fuel c w in
  (callbacks (trace r) = [] \/ callbacks (trace r) = [selected_callback c]) /\
  Forall (eq (selected_callback c)) (chunk_callbacks (trace r)) /\
  (callbacks (trace r) = [] -> chunk_callbacks (trace r) = []) /\
  ((exists path extra s rename rf,
      In (EvNewRealFile path extra s rename (inr rf)) (trace r)) ->
   callbacks (trace r) = [selected_callback c] /\
   (f_loop c = false \/ (0 < fuel)%nat -> chunk_callbacks (trace r) <> [])) /\
  ((forall path extra s rename rf,
      ~ In (EvNewRealFile path extra s rename (inr rf)) (trace r)) ->
   callbacks (trace r) = [] /\ chunk_callbacks (trace r) = [] /\
   exists e, outcome r = Returned (Some e)) /\
  (forall path extra s rename rf,
     In (EvNewRealFile path extra s rename (inr rf)) (trace r) ->
     exists pre post,
       trace r = pre ++ EvNewRealFile path extra s rename (inr rf)
                     :: EvCallback (selected_callback c) :: post /\
       callbacks pre = [] /\ chunk_callbacks pre = [] /\
       filter is_newrealfile pre = [] /\
       callbacks post = [] /\ filter is_newrealfile post = []) /\
  ((f_calc_commp c = true /\
    selected_callback c
    = CommPCallback (f_car_dir c) (f_rename c) (f_add_padding c)) \/
   (f_calc_commp c = false /\ f_save_manifest c = true /\
    selected_callback c = CSVCallback (f_car_dir c)) \/
   (f_calc_commp c = false /\ f_save_manifest c = false /\
    selected_callback c = ErrCallback)).
Proof.
  intros r. behaviours r B.
  split; [ | split; [ | split; [ | split; [ | split; [ | split;
    [ | apply selected_callback_cases ]]]]]].
  5: exact (no_reader_no_callback _ _ _ _ B).
  5: exact (callback_follows_reader _ _ _ _ B).
  all: destruct B; try loop_facts;
       unfold ready_events, saved_events, loaded_events, parse_events,
         reader_event, cmd_chunk_event, chunk_event;
       repeat match goal with
         | |- context [if String.eqb ?a ?b then _ else _] =>
             destruct (String.eqb a b) eqn:?
         end;
       cbn [app In callbacks chunk_callbacks];
       rewrite ?Fcb.
  all: try solve [ auto | repeat constructor; assumption
                 | intros; congruence ].
  all: intros (path & extra' & s & rename & rf' & Hin);
       in_cases Hin; try not_in_loop Hin.
  all: split; [ reflexivity | intros [Hl | Hf]; try congruence ].
  all: try discriminate.
  all: match goal with
       | L : loop_behaviour _ _ _ _ _ _ _ _ _ _ _ _ _ _ _ |- _ =>
           destruct (loop_first_pass _ _ _ _ _ _ _ _ _ _ _ _ _ _ _ L)
             as [(_ & _ & Hz) | (res0 & rest & ->)];
           [ lia | cbn; discriminate ]
       end.
Qed.



(** ** More of the [chunk] command *)

(** *** [strings.TrimSuffix] *)

Lemma length_app_string (s t : string) :
  String.length (s ++ t)%string = (String.length s + String.length t)%nat.
Proof. induction s as [| a s IH]; cbn; [ reflexivity | now rewrite IH ]. Qed.

Lemma substring_whole (t : string) : substring 0 (String.length t) t = t.
Proof. induction t as [| a t IH]; cbn; [ reflexivity | now rewrite IH ]. Qed.

Lemma substring_after (s t : string) (k : nat) :
  substring (String.length s) k (s ++ t)%string = substring 0 k t.
Proof. induction s as [| a s IH]; cbn; [ reflexivity | exact IH ]. Qed.

Lemma substring_before (s t : string) :
  substring 0 (String.length s) (s ++ t)%string = s.
Proof. induction s as [| a s IH]; cbn; [ now destruct t | now rewrite IH ]. Qed.

(** A suffix that is there is taken off, once. *)
Lemma TrimSuffix_app (s suffix : string) :
  TrimSuffix (s ++ suffix)%string suffix = s.
Proof.
  unfold TrimSuffix. rewrite length_app_string.
  replace (String.length s + String.length suffix - String.length suffix)%nat
    with (String.length s) by lia.
  rewrite substring_after, substring_whole, String.eqb_refl.
  replace (String.length suffix <=? String.length s + String.length suffix)%nat
    with true by (symmetry; apply Nat.leb_le; lia).
  cbn [andb]. apply substring_before.
Qed.

(** *** Calls of [Chunk] *)

Lemma chunk_calls_app (l1 l2 : list (event RealFile)) :
  chunk_calls (l1 ++ l2) = chunk_calls l1 ++ chunk_calls l2.
Proof.
  induction l1 as [| ev l1 IH]; [ reflexivity | ].
  destruct ev; cbn; now rewrite ?IH.
Qed.

Lemma chunk_calls_length (tr : list (event RealFile)) :
  List.length (chunk_calls tr) = List.length (filter is_chunk tr).
Proof.
  induction tr as [| ev tr IH]; [ reflexivity | ].
  destruct ev; cbn; now rewrite ?IH.
Qed.

Section LoopCalls.

Variables (cfgPath parentPath targetPath carDir graphName : string)
          (parallel : Z) (cb : GraphBuildCallback) (rf : RealFile)
          (randomRename randomSelect : bool).

Local Abbreviation loop :=
  (loop_behaviour cfgPath parentPath targetPath carDir graphName
                  parallel cb rf randomRename randomSelect).

(** Every pass calls [Chunk] with the arguments the loop was given. *)
Lemma loop_calls n cfg s tr o :
  loop n cfg s tr o ->
  Forall (fun cc =>
            cc_parentPath cc = parentPath /\ cc_targetPath cc = targetPath /\
            cc_carDir cc = carDir /\ cc_graphName cc = graphName /\
            cc_parallel cc = wrap64 parallel /\ cc_cb cc = cb /\
            cc_rf cc = rf /\ cc_randomRename cc = randomRename /\
            cc_randomSelect cc = randomSelect)
         (chunk_calls tr).
Proof.
  induction 1; cbn; repeat constructor; auto.
Qed.

(** The first pass runs at the size the loop starts from, the later ones
    above it, as long as the sizes stay in [int]. *)
Lemma loop_call_sizes n cfg s tr o :
  loop n cfg s tr o ->
  MinInt <= s -> s + Z.of_nat n <= MaxInt ->
  forall cc rest,
    chunk_calls tr = cc :: rest ->
    cc_sliceSize cc = s /\
    Forall (fun cc' => s < cc_sliceSize cc' <= s + Z.of_nat n) rest.
Proof.
  induction 1; intros Hlo Hhi cc rest Hcalls; cbn in Hcalls;
    try discriminate; inversion Hcalls; subst; cbn; auto.
  split; [ reflexivity | ].
  assert (wrap64 (s + 1) = s + 1) as Hw
    by (apply wrap64_id; unfold in_int; lia).
  rewrite Hw in *.
  destruct (chunk_calls tr) as [| cc' rest'] eqn:Htr; [ constructor | ].
  destruct (IHloop_behaviour ltac:(lia) ltac:(lia) cc' rest' eq_refl)
    as (Hfirst & Hrest).
  constructor; [ lia | ].
  eapply Forall_impl; [ | exact Hrest ]. cbn. intros; lia.
Qed.

(** A save that fails is the last thing the loop does. *)
Lemma loop_failed_save n cfg s tr o :
  loop n cfg s tr o ->
  forall cfg' p e,
    In (EvSaveConfig cfg' p (Some e)) tr ->
    o = Returned (Some (ErrSaveConfig e)) /\
    exists pre, tr = pre ++ [EvSaveConfig cfg' p (Some e)].
Proof.
  induction 1; intros cfg' p e0 Hin; cbn in Hin.
  - destruct Hin.
  - in_cases Hin.
  - in_cases Hin. split; [ reflexivity | ].
    eexists [_]. reflexivity.
  - in_cases Hin.
    destruct (IHloop_behaviour _ _ _ Hin) as (-> & pre & ->).
    split; [ reflexivity | ].
    eexists (_ :: _ :: _ :: _ :: _ :: pre). reflexivity.
Qed.

(** The loop saves to its path, and only the slice size changes. *)
Lemma loop_saves n cfg s tr o :
  loop n cfg s tr o ->
  forall cfg' p res,
    In (EvSaveConfig cfg' p res) tr ->
    p = cfgPath /\ cfg' = set_SliceSize cfg (SliceSize cfg').
Proof.
  induction 1; intros cfg' p res Hin; cbn in Hin;
    in_cases Hin; auto.
  destruct (IHloop_behaviour _ _ _ Hin) as (-> & Hcfg).
  split; [ reflexivity | ]. rewrite Hcfg at 1. reflexivity.
Qed.



End LoopCalls.

Ltac calls :=
  cbn [app In filter chunk_calls is_chunk is_sleep is_save is_newrealfile
       chunk_result List.length] in *.

(** Loop mode never ends well: the command is still going on, or it has
    returned an error. *)
Theorem loop_mode_returns_errors_only (fuel : nat) (c : ChunkFlags) (w : W) :
  let r := chunkCmd X fuel c w in
  f_loop c = true ->
  outcome r = Running \/ exists e, outcome r = Returned (Some e).
Proof.
  intros r Hloop. behaviours r B.
  destruct (loop_mode_shape _ _ _ _ B Hloop)
    as [(_ & e & ->) | (setup & cfg & rf & tail & -> & _ & L)].
  - eauto.
  - exact (loop_outcome _ _ _ _ _ _ _ _ _ _ _ _ _ _ _ L).
Qed.

(** Without loop mode the command returns after at most one call of
    [Chunk], never waits, returns [nil] exactly when [Chunk] was called and
    answered [nil], and hands on the error of [Chunk] as it is. *)
Theorem once_mode_result (fuel : nat) (c : ChunkFlags) (w : W) :
  let r := chunkCmd X fuel c w in
  f_loop c = false ->
  (exists e, outcome r = Returned e) /\
  (List.length (chunk_calls (trace r)) <= 1)%nat /\
  filter is_sleep (trace r) = [] /\
  (outcome r = Returned None <->
   exists cc, In cc (chunk_calls (trace r)) /\ cc_res cc = None) /\
  (forall cc e, In cc (chunk_calls (trace r)) -> cc_res cc = Some e ->
                outcome r = Returned (Some (ErrPassed e))).
Proof.
  intros r Hloop. behaviours r B.
  destruct B; try congruence; events; calls.
  all: split; [ eauto | split; [ lia | split; [ reflexivity | split ]]].
  all: try solve [ split; [ discriminate | intros (cc & [] & _) ] ].
  all: try solve [ intros cc e0 [] ].
  all: try solve [ intros cc e0 [<- | []]; cbn; intros ->; reflexivity ].
  all: split.
  all: try solve [ destruct res; cbn; [ discriminate | ];
                   intros _; eexists; split; [ left; reflexivity | reflexivity ] ].
  all: intros (cc & [<- | []] & Hres); cbn in Hres; subst; reflexivity.
Qed.

(** The extra-file reader is made at most once, from the path, the
    sizes and the flag of the run; when it cannot be made its error is
    returned as it is, with no callback built and no call of [Chunk];
    every call of [Chunk] gets the reader that was made, and there is no
    call of [Chunk] without one. *)
Theorem reader_made_once (fuel : nat) (c : ChunkFlags) (w : W) :
  let r := chunkCmd X fuel c w in
  (List.length (filter is_newrealfile (trace r)) <= 1)%nat /\
  (forall path extra s rename res,
     In (EvNewRealFile path extra s rename res) (trace r) ->
     exists cfg,
       In (EvLoadConfig (f_config c) (inr cfg)) (trace r) /\
       path = TrimSuffix (ExtraFilePath cfg) "/" /\
       extraFileSliceSize_of X cfg = Some extra /\
       s = incremented cfg /\
       rename = f_random_rename_source_file c /\
       match res with
       | inl e =>
           outcome r = Returned (Some (ErrPassed e)) /\
           callbacks (trace r) = [] /\ chunk_calls (trace r) = []
       | inr rf => Forall (fun cc => cc_rf cc = rf) (chunk_calls (trace r))
       end) /\
  (chunk_calls (trace r) <> [] -> filter is_newrealfile (trace r) <> []).
Proof.
  intros r. behaviours r B.
  destruct B; try loop_facts;
    try match goal with
        | L : loop_behaviour _ _ _ _ _ _ _ _ _ _ _ _ _ _ _ |- _ =>
            pose proof (loop_calls _ _ _ _ _ _ _ _ _ _ _ _ _ _ _ L) as Hcalls
        end;
    unfold ready_events, saved_events, loaded_events, parse_events,
      reader_event, cmd_chunk_event, chunk_event;
    repeat match goal with
      | |- context [if String.eqb ?a ?b then _ else _] =>
          destruct (String.eqb a b) eqn:?
      end;
    calls; cbn [callbacks]; rewrite ?Fnew, ?Fcb.
  all: split; [ cbn; lia | split ].
  all: try solve [ intros; congruence | intros _; discriminate ].
  all: intros path extra' s rename res' Hin; in_cases Hin;
       try not_in_loop Hin.
  all: exists cfg; split; [ in_list | ].
  all: repeat split; auto.
  all: try solve [ repeat constructor ].
  all: eapply Forall_impl; [ | exact Hcalls ]; cbn; intuition.
Qed.

Lemma extra_in_int (cfg : Config) (extra : Z) :
  extraFileSliceSize_of X cfg = Some extra -> in_int extra.
Proof.
  unfold extraFileSliceSize_of.
  destruct (String.eqb (ExtraFilePath cfg) "").
  - intros H. inversion H. unfold in_int, MinInt, MaxInt. lia.
  - destruct (String.eqb (ExtraFileSizeInOnePiece cfg) ""); [ discriminate | ].
    destruct (ext_RAMInBytes X (ExtraFileSizeInOnePiece cfg)); [ discriminate | ].
    intros H. inversion H. apply wrap64_in_int.
Qed.

Lemma wrap64_overflow (a b : Z) :
  in_int a -> in_int b -> MaxInt < a + b -> wrap64 (a + b) < 0.
Proof.
  unfold in_int, MinInt, MaxInt, wrap64. intros Ha Hb Hsum.
  replace (a + b + 2 ^ 63) with (a + b + 2 ^ 63 - 2 ^ 64 + 1 * 2 ^ 64) by lia.
  rewrite Z_mod_plus_full, Z.mod_small; lia.
Qed.

(** Before the first call of [Chunk] the configuration was loaded and
    then saved with the incremented slice size, the save having gone
    well and being the first one; the call runs at that size, which is
    positive and, with the extra-file slice size, within 32 GiB (the sum
    taken in [int]). *)
Theorem first_pass_within_bounds (fuel : nat) (c : ChunkFlags) (w : W) :
  let r := chunkCmd X fuel c w in
  forall pre ev post cc,
    trace r = pre ++ ev :: post ->
    chunk_calls pre = [] ->
    chunk_calls [ev] = [cc] ->
    exists cfg extra before between later,
      pre = before
            ++ EvLoadConfig (f_config c) (inr cfg)
            :: between
            ++ EvSaveConfig (set_SliceSize cfg (incremented cfg)) (f_config c) None
            :: later /\
      filter is_save before = [] /\
      filter is_save between = [] /\
      extraFileSliceSize_of X cfg = Some extra /\
      cc_sliceSize cc = incremented cfg /\
      0 < cc_sliceSize cc /\
      wrap64 (cc_sliceSize cc + extra) <= 32 * Gib.
Proof.
  intros r pre ev post cc Heq Hpre Hev. behaviours r B.
  assert (is_chunk ev = true) as Hchunk
    by (destruct ev; cbn in Hev; try discriminate; reflexivity).
  assert (filter is_chunk pre = []) as Hnone.
  { apply length_zero_iff_nil.
    rewrite <- chunk_calls_length, Hpre. reflexivity. }
  destruct B;
    try match goal with
        | L : loop_behaviour _ _ _ _ _ _ _ _ _ _ _ _ _ _ _ |- _ =>
            destruct (loop_first_pass _ _ _ _ _ _ _ _ _ _ _ _ _ _ _ L)
              as [(-> & _ & _) | (res0 & rest0 & ->)]
        end;
    unfold ready_events, saved_events, loaded_events, parse_events,
      reader_event, cmd_chunk_event, chunk_event in Heq;
    repeat match type of Heq with
      | context [if String.eqb ?a ?b then _ else _] =>
          destruct (String.eqb a b) eqn:?
      end;
    cbn [app] in Heq;
    split_list Heq;
    try discriminate Hchunk;
    try (cbn in Hnone; discriminate Hnone).
  all: cbn in Hev; inversion Hev; subst; cbn [cc_sliceSize].
  all: eexists cfg, extra, [_], [_; _; _], _.
  all: split; [ reflexivity | ].
  all: repeat split; auto.
Qed.

(** The 32 GiB check is made before the first pass only: in loop mode
    the later calls of [Chunk] run at sizes above the size checked (as
    long as they stay in [int]), so over the bound when the checked size
    was just at it. *)
Theorem bound_checked_for_first_pass_only
    (fuel : nat) (c : ChunkFlags) (w : W) (cfg : Config) (extra : Z) :
  let r := chunkCmd X fuel c w in
  In (EvLoadConfig (f_config c) (inr cfg)) (trace r) ->
  incremented cfg + Z.of_nat fuel <= MaxInt ->
  forall cc rest,
    chunk_calls (trace r) = cc :: rest ->
    Forall (fun cc' =>
              incremented cfg < cc_sliceSize cc'
              <= incremented cfg + Z.of_nat fuel)
           rest /\
    (incremented cfg + extra = 32 * Gib ->
     Forall (fun cc' => 32 * Gib < cc_sliceSize cc' + extra) rest).
Proof.
  intros r Hload Hfuel cc rest Hcalls.
  assert (Forall (fun cc' =>
                    incremented cfg < cc_sliceSize cc'
                    <= incremented cfg + Z.of_nat fuel) rest) as Hrest.
  { revert Hload Hcalls. behaviours r B.
    pose proof (wrap64_in_int (SliceSize cfg + 1)) as [Hlo _].
    destruct B; events; calls; intros Hload Hcalls; find_config Hload;
      try discriminate.
    - inversion Hcalls. constructor.
    - inversion Hcalls. constructor.
    - match goal with
      | L : loop_behaviour _ _ _ _ _ _ _ _ _ _ _ _ _ _ _ |- _ =>
          exact (proj2 (loop_call_sizes _ _ _ _ _ _ _ _ _ _ _ _ _ _ _ L
                          Hlo Hfuel _ _ Hcalls))
      end.
    - match goal with
      | L : loop_behaviour _ _ _ _ _ _ _ _ _ _ _ _ _ _ _ |- _ =>
          exact (proj2 (loop_call_sizes _ _ _ _ _ _ _ _ _ _ _ _ _ _ _ L
                          Hlo Hfuel _ _ Hcalls))
      end. }
  split; [ exact Hrest | ].
  intros Hat. eapply Forall_impl; [ | exact Hrest ].
  intros cc' Hcc'. cbv beta in Hcc'. lia.
Qed.

(** The check of the two sizes takes their sum in [int]: when the sum is
    beyond the largest [int] it wraps around below zero, the 32 GiB error
    is not given, and the command goes on to make the extra-file reader. *)
Theorem oversize_sum_beyond_int_not_rejected
    (fuel : nat) (c : ChunkFlags) (w : W) (cfg : Config) (extra : Z) :
  let r := chunkCmd X fuel c w in
  In (EvLoadConfig (f_config c) (inr cfg)) (trace r) ->
  extraFileSliceSize_of X cfg = Some extra ->
  MaxInt < incremented cfg + extra ->
  (forall s e, outcome r <> Returned (Some (ErrExceeds32GiB s e))) /\
  (In (EvSaveConfig (set_SliceSize cfg (incremented cfg)) (f_config c) None)
      (trace r) ->
   exists res, In (reader_event c cfg extra res) (trace r)).
Proof.
  intros r Hload Hextra Hsum.
  pose proof (wrap64_overflow _ _ (wrap64_in_int (SliceSize cfg + 1))
                (extra_in_int _ _ Hextra) Hsum) as Hneg.
  behaviours r B.
  destruct B; events; find_config Hload; bool_facts; same_extra;
    try congruence.
  all: try (unfold Gib in *; lia).
  all: split;
       [ intros s0 e0;
         first [ discriminate
               | match goal with
                 | |- Returned (option_map _ ?res) <> _ =>
                     destruct res; discriminate
                 | L : loop_behaviour _ _ _ _ _ _ _ _ _ _ _ _ _ _ _ |- _ =>
                     intros Ho;
                     destruct (loop_errors _ _ _ _ _ _ _ _ _ _ _ _ _ _ _ L _ Ho)
                       as [(x & Hx) | (x & Hx)]; discriminate
                 end ]
       | ].
  all: intros Hsave; in_cases Hsave.
  all: eexists; in_list.
Qed.

Lemma ends_with_cons {A} (a x : A) (l : list A) :
  (exists pre, l = pre ++ [x]) -> exists pre, a :: l = pre ++ [x].
Proof. intros (pre & ->). exists (a :: pre). reflexivity. Qed.

Ltac ends_with :=
  first [ exists []; reflexivity
        | match goal with pre : list _ |- _ => exists pre; reflexivity end
        | apply ends_with_cons; ends_with ].

(** A configuration that does not load, and a save that fails (the first
    one or one of the loop), end the run at once: the failing call is the
    last event and its error is what the command returns; after a load
    that failed nothing was saved. *)
Theorem failed_config_io_ends_run (fuel : nat) (c : ChunkFlags) (w : W) :
  let r := chunkCmd X fuel c w in
  (forall p e,
     In (EvLoadConfig p (inl e)) (trace r) ->
     outcome r = Returned (Some (ErrLoadConfig (f_config c) e)) /\
     trace r = [EvExistDir (f_car_dir c) true; EvLoadConfig (f_config c) (inl e)]) /\
  (forall cfg' p e,
     In (EvSaveConfig cfg' p (Some e)) (trace r) ->
     outcome r = Returned (Some (ErrSaveConfig e)) /\
     exists pre, trace r = pre ++ [EvSaveConfig cfg' p (Some e)]).
Proof.
  intros r. behaviours r B.
  destruct B; try loop_facts;
    unfold ready_events, saved_events, loaded_events, parse_events,
      reader_event, cmd_chunk_event, chunk_event;
    repeat match goal with
      | |- context [if String.eqb ?a ?b then _ else _] =>
          destruct (String.eqb a b) eqn:?
      end;
    cbn [app In].
  all: split; [ intros p e' Hin | intros cfg' p e' Hin ];
       in_cases Hin; try not_in_loop Hin; auto.
  all: try solve [ split; [ reflexivity | ]; ends_with ].
  all: match goal with
       | L : loop_behaviour _ _ _ _ _ _ _ _ _ _ _ _ _ _ _ |- _ =>
           destruct (loop_failed_save _ _ _ _ _ _ _ _ _ _ _ _ _ _ _ L _ _ _ Hin)
             as (-> & pre & ->)
       end.
  all: split; [ reflexivity | ].
  all: ends_with.
Qed.

(** Every save of the configuration goes to the path of the [config]
    flag and writes the configuration that was loaded with nothing but
    its slice size changed. *)
Theorem saves_change_slice_size_only (fuel : nat) (c : ChunkFlags) (w : W) :
  let r := chunkCmd X fuel c w in
  forall cfg' p res,
    In (EvSaveConfig cfg' p res) (trace r) ->
    p = f_config c /\
    exists cfg,
      In (EvLoadConfig (f_config c) (inr cfg)) (trace r) /\
      cfg' = set_SliceSize cfg (SliceSize cfg').
Proof.
  intros r cfg' p res. behaviours r B.
  destruct B;
    unfold ready_events, saved_events, loaded_events, parse_events,
      reader_event, cmd_chunk_event, chunk_event;
    repeat match goal with
      | |- context [if String.eqb ?a ?b then _ else _] =>
          destruct (String.eqb a b) eqn:?
      end;
    cbn [app In]; intros Hin; in_cases Hin.
  all: try solve [ split; [ reflexivity | ];
                   exists cfg; split; [ in_list | reflexivity ] ].
  all: match goal with
       | L : loop_behaviour _ _ _ _ _ _ _ _ _ _ _ _ _ _ _ |- _ =>
           destruct (loop_saves _ _ _ _ _ _ _ _ _ _ _ _ _ _ _ L _ _ _ Hin)
             as (-> & Hcfg)
       end.
  all: split; [ reflexivity | ].
  all: exists cfg; split; [ in_list | ].
  all: rewrite Hcfg at 1; reflexivity.
Qed.


(** Every call of [Chunk] gets the flags of the run as they are (parent
    path, CAR directory, graph name, the two random flags), the input
    path without one trailing slash, and the parallelism converted to
    [int] with no check of its value. *)
Theorem chunk_gets_the_flags (fuel : nat) (c : ChunkFlags) (w : W) :
  let r := chunkCmd X fuel c w in
  Forall (fun cc =>
            cc_parentPath cc = f_parent_path c /\
            cc_targetPath cc = TrimSuffix (First (f_args c)) "/" /\
            cc_carDir cc = f_car_dir c /\
            cc_graphName cc = f_graph_name c /\
            cc_parallel cc = wrap64 (f_parallel c) /\
            cc_randomRename cc = f_random_rename_source_file c /\
            cc_randomSelect cc = f_random_select_file c)
         (chunk_calls (trace r)) /\
  (0 <= f_parallel c <= MaxInt ->
   Forall (fun cc => cc_parallel cc = f_parallel c) (chunk_calls (trace r))) /\
  (MaxInt < f_parallel c < 2 ^ 64 ->
   Forall (fun cc => cc_parallel cc = f_parallel c - 2 ^ 64)
          (chunk_calls (trace r))).
Proof.
  intros r.
  assert (Forall (fun cc =>
            cc_parentPath cc = f_parent_path c /\
            cc_targetPath cc = TrimSuffix (First (f_args c)) "/" /\
            cc_carDir cc = f_car_dir c /\
            cc_graphName cc = f_graph_name c /\
            cc_parallel cc = wrap64 (f_parallel c) /\
            cc_randomRename cc = f_random_rename_source_file c /\
            cc_randomSelect cc = f_random_select_file c)
         (chunk_calls (trace r))) as Hall.
  { behaviours r B.
    destruct B;
      try match goal with
          | L : loop_behaviour _ _ _ _ _ _ _ _ _ _ _ _ _ _ _ |- _ =>
              pose proof (loop_calls _ _ _ _ _ _ _ _ _ _ _ _ _ _ _ L) as Hcalls
          end;
      unfold ready_events, saved_events, loaded_events, parse_events,
        reader_event, cmd_chunk_event, chunk_event;
      repeat match goal with
        | |- context [if String.eqb ?a ?b then _ else _] =>
            destruct (String.eqb a b) eqn:?
        end;
      calls; try solve [ repeat constructor ].
    all: eapply Forall_impl; [ | exact Hcalls ]; cbn; intuition. }
  split; [ exact Hall | split ]; intros Hpar;
    (eapply Forall_impl; [ | exact Hall ]);
    intros cc (_ & _ & _ & _ & -> & _).
  - apply wrap64_id. unfold in_int, MinInt, MaxInt in *. lia.
  - unfold wrap64, MaxInt in *.
    replace (f_parallel c + 2 ^ 63)
      with (f_parallel c + 2 ^ 63 - 2 ^ 64 + 1 * 2 ^ 64) by lia.
    rewrite Z_mod_plus_full, Z.mod_small; lia.
Qed.

(** An input path given with a trailing slash reaches [Chunk] without
    it: one slash is taken off, and no more. *)
Theorem input_path_loses_one_slash
    (fuel : nat) (c : ChunkFlags) (w : W) (path : string) (others : list string) :
  let r := chunkCmd X fuel c w in
  f_args c = (path ++ "/")%string :: others ->
  Forall (fun cc => cc_targetPath cc = path) (chunk_calls (trace r)).
Proof.
  intros r Hargs.
  assert (TrimSuffix (First (f_args c)) "/" = path) as Htrim
    by (rewrite Hargs; cbn [First hd]; apply TrimSuffix_app).
  revert Htrim. behaviours r B. intros Htrim.
  destruct B;
    try match goal with
        | L : loop_behaviour _ _ _ _ _ _ _ _ _ _ _ _ _ _ _ |- _ =>
            pose proof (loop_calls _ _ _ _ _ _ _ _ _ _ _ _ _ _ _ L) as Hcalls
        end;
    unfold ready_events, saved_events, loaded_events, parse_events,
      reader_event, cmd_chunk_event, chunk_event;
    repeat match goal with
      | |- context [if String.eqb ?a ?b then _ else _] =>
          destruct (String.eqb a b) eqn:?
      end;
    calls; try solve [ repeat constructor; assumption ].
  all: eapply Forall_impl; [ | exact Hcalls ]; cbn; intros cc' Hcc';
       destruct Hcc' as (_ & -> & _); exact Htrim.
Qed.

End Properties.

(** * The driver on concrete inputs *)

Example TrimSuffix_slash : TrimSuffix "data/" "/" = "data".
Proof. reflexivity. Qed.

Example TrimSuffix_none : TrimSuffix "data" "/" = "data".
Proof. reflexivity. Qed.

(** One pass from a stored slice size of 10: the size saved and chunked
    is 11. *)
Example chunk_once_size_uses :
  let r := chunkCmd simX 1 flags0 (sim0 (cfg_of_size 10)) in
  outcome r = Returned None /\
  size_uses (trace r) = [Saved 11 true; Chunked 11 true].
Proof. vm_compute. auto. Qed.

(** Two passes of the loop, 60 seconds of wait after each. *)
Example chunk_loop_two_passes :
  let r := chunkCmd simX 2 (with_loop flags0 true) (sim0 (cfg_of_size 10)) in
  outcome r = Running /\
  size_uses (trace r)
  = [Saved 11 true; Chunked 11 true; Saved 12 true; Chunked 12 true;
     Saved 13 true] /\
  sim_clock (world r) = 120.
Proof. vm_compute. auto. Qed.

(** The sum of the two sizes is taken in [int]: a slice size and an
    extra-file slice size of 2^62 each wrap around to a negative sum,
    which the 32 GiB check lets through. *)
Example oversize_sum_wraps_past_check :
  let r := chunkCmd simX 1 flags0 (sim0 (cfg_with_extra (2 ^ 62) "4096PiB")) in
  outcome r = Returned None /\
  size_uses (trace r) = [Saved (2 ^ 62 + 1) true; Chunked (2 ^ 62 + 1) true].
Proof. vm_compute. auto. Qed.

(** ** C1 *)

(** C1 fails as worded: with a stored slice size of 40 GiB the command
    rejects the configuration, but only after it has saved the
    configuration file with the incremented size. *)
Lemma oversize_config_saved_before_rejection :
  ~ oversize_rejected_before_any_write simX 1 flags0
      (sim0 (cfg_of_size (40 * Gib))).
Proof.
  intros H.
  destruct (H (cfg_of_size (40 * Gib)) 0) as (_ & _ & Hw).
  - vm_compute. auto.
  - reflexivity.
  - vm_compute. reflexivity.
  - vm_compute in Hw. discriminate.
Qed.

Lemma oversize_rejected_after_config_saved_witness :
  let cfg := cfg_of_size (40 * Gib) in
  let r := chunkCmd simX 1 flags0 (sim0 cfg) in
  outcome r = Returned (Some (ErrExceeds32GiB (40 * Gib + 1) 0)) /\
  filter is_chunk (trace r) = [].
Proof.
  intros cfg r.
  destruct (oversize_rejected_after_config_saved simX 1 flags0 (sim0 cfg) cfg 0)
    as (_ & Hchunk & _ & Hsave).
  - vm_compute. auto.
  - reflexivity.
  - vm_compute. split; [ reflexivity | discriminate ].
  - split; [ | exact Hchunk ].
    destruct Hsave as (res & Hin & Hres); [ vm_compute; reflexivity | ].
    vm_compute in Hin.
    repeat (destruct Hin as [Hin | Hin]; try discriminate Hin);
      [ | destruct Hin ].
    inversion Hin; subst. exact (Hres eq_refl).
Defined.

(** ** C2 *)

(** C2 fails as worded: one archive does not decode, and the command
    returns [nil] all the same. *)
Lemma restore_failure_not_reported :
  ~ restore_reports_failures simX rflags0 sim_bad_archive.
Proof.
  intros (Hfail & _).
  destruct Hfail as (e & He).
  - vm_compute. discriminate.
  - vm_compute in He. discriminate.
Qed.

Lemma restore_result_ignores_failures_witness :
  restore_failures (trace (restoreCmd simX rflags0 sim_bad_archive))
  = ["g-1.car: unexpected EOF"] /\
  outcome (restoreCmd simX rflags0 sim_bad_archive) = Returned None.
Proof.
  apply (proj1 (restore_result_ignores_failures simX rflags0 sim_bad_archive)).
  vm_compute. reflexivity.
Defined.

(** ** C3 *)



(** ** C4 *)

Lemma nonpositive_incremented_size_rejected_witness :
  let r := chunkCmd simX 1 flags0 (sim0 (cfg_of_size (-1))) in
  outcome r = Returned (Some (ErrSliceSize 0)) /\
  filter is_save (trace r) = [].
Proof.
  intros r.
  destruct (nonpositive_incremented_size_rejected simX 1 flags0
              (sim0 (cfg_of_size (-1))) (cfg_of_size (-1)))
    as (Hrejected & _).
  - vm_compute. auto.
  - destruct Hrejected as (Ho & _ & Hs & _).
    + vm_compute. discriminate.
    + split; [ exact Ho | exact Hs ].
Defined.

(** ** C5 *)

(** C5 fails as worded: without the CAR directory the command returns
    before it builds any callback. *)
Lemma no_callback_without_car_dir :
  ~ one_callback_every_invocation simX 1 flags0 (sim_no_dir (cfg_of_size 10)).
Proof.
  intros (Hcb & _). vm_compute in Hcb. discriminate.
Qed.

Lemma one_callback_once_reader_is_made_witness :
  let r := chunkCmd simX 1 flags0 (sim0 (cfg_of_size 10)) in
  callbacks (trace r) = [CommPCallback "cars" false false] /\
  chunk_callbacks (trace r) <> [].
Proof.
  intros r.
  destruct (one_callback_once_reader_is_made simX 1 flags0 (sim0 (cfg_of_size 10)))
    as (_ & _ & _ & Hmade & _).
  destruct Hmade as (Hcb & Hchunk).
  - exists "", 0, 11, false, tt. vm_compute. auto 10.
  - split; [ exact Hcb | apply Hchunk; left; reflexivity ].
Defined.

(** ** C6 *)

Lemma restore_then_merge_witness :
  trace (restoreCmd simX rflags0 sim_bad_archive)
  = [EvCarTo "cars" "out" 4 ["g-1.car: unexpected EOF"];
     EvMerge "out" 4 [];
     EvLog PrintCompleted].
Proof.
  apply (restore_then_merge simX rflags0 sim_bad_archive). reflexivity.
Defined.

(** ** C7 *)

Lemma restore_checks_parallelism_witness :
  outcome (restoreCmd simX (with_parallel rflags0 0) sim_bad_archive)
  = Returned (Some ErrParallel) /\
  outcome (restoreCmd simX rflags0 sim_bad_archive) = Returned None.
Proof.
  split.
  - apply (proj1 (restore_checks_parallelism simX (with_parallel rflags0 0)
                    sim_bad_archive)).
    vm_compute. discriminate.
  - apply (proj2 (restore_checks_parallelism simX rflags0 sim_bad_archive)).
    vm_compute. reflexivity.
Defined.

(** ** C8 *)



(** ** C9 *)

Lemma chunk_fails_before_config_is_loaded_witness :
  let r := chunkCmd simX 1 flags0 (sim_no_dir (cfg_of_size 10)) in
  trace r = [EvExistDir "cars" false] /\ filter is_load (trace r) = [].
Proof.
  intros r.
  destruct (chunk_fails_before_config_is_loaded simX 1 flags0
              (sim_no_dir (cfg_of_size 10)))
    as (_ & Htrace & Hload & _).
  - left. reflexivity.
  - split; [ exact Htrace | exact Hload ].
Defined.

(** ** C10 *)


(** ** More of the [chunk] command, on concrete inputs *)

Lemma loop_mode_returns_errors_only_witness :
  let r := chunkCmd simX 2 (with_loop flags0 true) (sim0 (cfg_of_size 10)) in
  outcome r = Running \/ exists e, outcome r = Returned (Some e).
Proof.
  apply (loop_mode_returns_errors_only simX 2 (with_loop flags0 true)
           (sim0 (cfg_of_size 10))).
  reflexivity.
Defined.

Lemma once_mode_result_witness :
  let r := chunkCmd simX 1 flags0
             (sim_chunking (cfg_of_size 10) [Some "no space left on device"]) in
  outcome r = Returned (Some (ErrPassed "no space left on device")).
Proof.
  intros r.
  destruct (once_mode_result simX 1 flags0
              (sim_chunking (cfg_of_size 10) [Some "no space left on device"]))
    as (_ & _ & _ & _ & Herr).
  - reflexivity.
  - apply (Herr (mkChunkCall 11 "" "data" "cars" "g" 2
                   (CommPCallback "cars" false false) tt false true
                   (Some "no space left on device"))).
    + vm_compute. auto.
    + reflexivity.
Defined.

Lemma reader_made_once_witness :
  let r := chunkCmd simX 2 (with_loop flags0 true)
             (sim0 (cfg_with_extra 10 "1GiB")) in
  Forall (fun cc => cc_rf cc = tt) (chunk_calls (trace r)).
Proof.
  intros r.
  destruct (reader_made_once simX 2 (with_loop flags0 true)
              (sim0 (cfg_with_extra 10 "1GiB")))
    as (_ & Hreader & _).
  destruct (Hreader "filler" (2 ^ 30) 11 false (inr tt)) as (cfg & _ & _ & _ & _ & _ & H).
  - vm_compute. auto 12.
  - exact H.
Defined.

Lemma first_pass_within_bounds_witness :
  let r := chunkCmd simX 1 flags0 (sim0 (cfg_with_extra 10 "1GiB")) in
  exists cfg extra before between later,
    firstn 12 (trace r)
    = before ++ EvLoadConfig "cfg.toml" (inr cfg)
      :: between
      ++ EvSaveConfig (set_SliceSize cfg (incremented cfg)) "cfg.toml" None
      :: later /\
    extraFileSliceSize_of simX cfg = Some extra /\
    wrap64 (11 + extra) <= 32 * Gib.
Proof.
  intros r.
  destruct (first_pass_within_bounds simX 1 flags0
              (sim0 (cfg_with_extra 10 "1GiB"))
              (firstn 12 (trace r))
              (EvChunk 11 "" "data" "cars" "g" 2
                 (CommPCallback "cars" false false) tt false true None)
              []
              (mkChunkCall 11 "" "data" "cars" "g" 2
                 (CommPCallback "cars" false false) tt false true None))
    as (cfg & extra & before & between & later
        & Hpre & _ & _ & Hextra & _ & _ & Hbound).
  - reflexivity.
  - reflexivity.
  - reflexivity.
  - exists cfg, extra, before, between, later.
    split; [ exact Hpre | split; [ exact Hextra | exact Hbound ]].
Defined.

Lemma bound_checked_for_first_pass_only_witness :
  let r := chunkCmd simX 2 (with_loop flags0 true)
             (sim0 (cfg_of_size (32 * Gib - 1))) in
  map cc_sliceSize (chunk_calls (trace r)) = [32 * Gib; 32 * Gib + 1] /\
  Forall (fun cc => 32 * Gib < cc_sliceSize cc + 0) (tl (chunk_calls (trace r))).
Proof.
  intros r. split; [ reflexivity | ].
  destruct (bound_checked_for_first_pass_only simX 2 (with_loop flags0 true)
              (sim0 (cfg_of_size (32 * Gib - 1))) (cfg_of_size (32 * Gib - 1)) 0
              ltac:(vm_compute; auto) ltac:(vm_compute; discriminate)
              (hd (mkChunkCall 0 "" "" "" "" 0 ErrCallback tt false false None)
                  (chunk_calls (trace r)))
              (tl (chunk_calls (trace r))) eq_refl)
    as (_ & Hover).
  apply Hover. reflexivity.
Defined.

Lemma oversize_sum_beyond_int_not_rejected_witness :
  let cfg := cfg_with_extra (2 ^ 62) "4096PiB" in
  let r := chunkCmd simX 1 flags0 (sim0 cfg) in
  exists res, In (reader_event flags0 cfg (2 ^ 62) res) (trace r).
Proof.
  intros cfg r.
  destruct (oversize_sum_beyond_int_not_rejected simX 1 flags0 (sim0 cfg) cfg
              (2 ^ 62))
    as (_ & Hreader).
  - vm_compute. auto.
  - reflexivity.
  - vm_compute. reflexivity.
  - apply Hreader. vm_compute. auto 10.
Defined.

Lemma failed_config_io_ends_run_witness :
  let r := chunkCmd simX 1 flags0 (sim_read_only_fs (cfg_of_size 10)) in
  outcome r = Returned (Some (ErrSaveConfig "read-only file system")).
Proof.
  intros r.
  destruct (failed_config_io_ends_run simX 1 flags0
              (sim_read_only_fs (cfg_of_size 10)))
    as (_ & Hsave).
  destruct (Hsave (cfg_of_size 11) "cfg.toml" "read-only file system")
    as (Hout & _).
  - vm_compute. auto 10.
  - exact Hout.
Defined.

Lemma saves_change_slice_size_only_witness :
  let r := chunkCmd simX 1 flags0 (sim0 (cfg_with_extra 10 "1GiB")) in
  exists cfg,
    In (EvLoadConfig "cfg.toml" (inr cfg)) (trace r) /\
    cfg_with_extra 11 "1GiB" = set_SliceSize cfg 11.
Proof.
  intros r.
  destruct (saves_change_slice_size_only simX 1 flags0
              (sim0 (cfg_with_extra 10 "1GiB"))
              (cfg_with_extra 11 "1GiB") "cfg.toml" None)
    as (_ & cfg & Hload & Hcfg).
  - vm_compute. auto 10.
  - exists cfg. split; [ exact Hload | exact Hcfg ].
Defined.


Lemma chunk_gets_the_flags_witness :
  let r := chunkCmd simX 1 flags0 (sim0 (cfg_of_size 10)) in
  Forall (fun cc => cc_parallel cc = 2) (chunk_calls (trace r)).
Proof.
  intros r.
  apply (proj1 (proj2 (chunk_gets_the_flags simX 1 flags0 (sim0 (cfg_of_size 10))))).
  vm_compute. split; discriminate.
Defined.

Lemma input_path_loses_one_slash_witness :
  let r := chunkCmd simX 1 flags0 (sim0 (cfg_of_size 10)) in
  Forall (fun cc => cc_targetPath cc = "data") (chunk_calls (trace r)).
Proof.
  apply (input_path_loses_one_slash simX 1 flags0 (sim0 (cfg_of_size 10))
           "data" []).
  reflexivity.
Defined.
